(** * Prompt compilation and guideline resolution: a shallow embedding

    This development embeds the JavaScript sources
      - [scripts/promptEngines.js]  (MiniTranslator, SlotParser, createBuilder,
        installFromGuidelines) and
      - [scripts/updateManager.js]  (loadGuidelines)
    as executable Rocq functions and proves properties of them.

    JavaScript strings are sequences of UTF-16 code units; they are modelled
    as [list N].  JavaScript objects used as string-keyed maps are modelled
    as association lists kept in property-creation order, because
    [Object.keys] exposes that order and the translator depends on it. *)

From Stdlib Require Import List NArith ZArith Bool Lia String Ascii.
From Stdlib Require Import Numbers.DecimalString.
From Stdlib Require Import Sorting.Sorted Sorting.Permutation.
Import ListNotations.

Set Implicit Arguments.

(* ====================================================================== *)
(** ** JavaScript strings *)
(* ====================================================================== *)

Module JsString.

(** One UTF-16 code unit. *)
Definition code_unit := N.

(** A JavaScript string value. *)
Definition jsstring := list code_unit.

(** Decoding of a UTF-8 byte sequence (how a literal is stored in this
    file) into UTF-16 code units (how JavaScript sees the same literal). *)
Fixpoint utf8_to_utf16 (bs : list N) : jsstring :=
  match bs with
  | [] => []
  | b0 :: r0 =>
    if (b0 <? 0x80)%N then b0 :: utf8_to_utf16 r0
    else
      match r0 with
      | [] => []
      | b1 :: r1 =>
        if (b0 <? 0xE0)%N then
          N.lor (N.shiftl (N.land b0 0x1F) 6) (N.land b1 0x3F)
            :: utf8_to_utf16 r1
        else
          match r1 with
          | [] => []
          | b2 :: r2 =>
            if (b0 <? 0xF0)%N then
              N.lor (N.shiftl (N.land b0 0x0F) 12)
                    (N.lor (N.shiftl (N.land b1 0x3F) 6) (N.land b2 0x3F))
                :: utf8_to_utf16 r2
            else
              match r2 with
              | [] => []
              | b3 :: r3 =>
                let cp :=
                  N.lor (N.shiftl (N.land b0 0x07) 18)
                    (N.lor (N.shiftl (N.land b1 0x3F) 12)
                       (N.lor (N.shiftl (N.land b2 0x3F) 6)
                              (N.land b3 0x3F))) in
                let v := (cp - 0x10000)%N in
                (0xD800 + N.shiftr v 10)%N
                  :: (0xDC00 + N.land v 0x3FF)%N
                  :: utf8_to_utf16 r3
              end
          end
      end
  end.

(** The JavaScript string denoted by a source literal. *)
Definition js (s : string) : jsstring :=
  utf8_to_utf16 (List.map N_of_ascii (list_ascii_of_string s)).

Definition eqb (a b : jsstring) : bool :=
  if list_eq_dec N.eq_dec a b then true else false.

(** [s.length] *)
Definition length (s : jsstring) : nat := List.length s.

(** Truthiness of a string: only the empty string is falsy. *)
Definition truthy (s : jsstring) : bool :=
  match s with [] => false | _ :: _ => true end.

(** [a || b] on strings. *)
Definition or_else (a b : jsstring) : jsstring :=
  if truthy a then a else b.

(** [String.prototype.startsWith]: is [p] a prefix of [s]? *)
Fixpoint is_prefix (p s : jsstring) : bool :=
  match p, s with
  | [], _ => true
  | _ :: _, [] => false
  | a :: p', b :: s' => (a =? b)%N && is_prefix p' s'
  end.

(** Does [p] occur in [s] as a contiguous substring?  This is what
    [/p/.test(s)] decides for a pattern without metacharacters. *)
Fixpoint occurs (p s : jsstring) : bool :=
  is_prefix p s ||
  match s with
  | [] => false
  | _ :: s' => occurs p s'
  end.

(** White space and line terminators removed by [String.prototype.trim]
    (ECMAScript WhiteSpace and LineTerminator productions). *)
Definition is_white_space (c : code_unit) : bool :=
  ((c =? 0x9) || (c =? 0xA) || (c =? 0xB) || (c =? 0xC) || (c =? 0xD)
   || (c =? 0x20) || (c =? 0xA0) || (c =? 0x1680)
   || ((0x2000 <=? c) && (c <=? 0x200A))
   || (c =? 0x2028) || (c =? 0x2029) || (c =? 0x202F) || (c =? 0x205F)
   || (c =? 0x3000) || (c =? 0xFEFF))%N.

(** ECMAScript LineTerminator: LF, CR, LS, PS. *)
Definition is_line_terminator (c : code_unit) : bool :=
  ((c =? 0xA) || (c =? 0xD) || (c =? 0x2028) || (c =? 0x2029))%N.

Fixpoint trim_start (s : jsstring) : jsstring :=
  match s with
  | [] => []
  | c :: s' => if is_white_space c then trim_start s' else s
  end.

Definition trim_end (s : jsstring) : jsstring :=
  rev (trim_start (rev s)).

(** [s.trim()] *)
Definition trim (s : jsstring) : jsstring := trim_end (trim_start s).

(** [GetSubstitution] of ECMAScript for a match without capture groups:
    in the replacement text, [$$] stands for a dollar sign, [$&] for the
    matched text, [$`] for the text before the match and [$'] for the
    text after it; any other use of [$] is literal. *)
Fixpoint get_substitution (matched before after replacement : jsstring)
  : jsstring :=
  match replacement with
  | [] => []
  | c :: r' =>
    if (c =? 0x24)%N then
      match r' with
      | [] => [c]
      | d :: r'' =>
        if (d =? 0x24)%N then
          0x24%N :: get_substitution matched before after r''
        else if (d =? 0x26)%N then
          matched ++ get_substitution matched before after r''
        else if (d =? 0x60)%N then
          before ++ get_substitution matched before after r''
        else if (d =? 0x27)%N then
          after ++ get_substitution matched before after r''
        else c :: get_substitution matched before after r'
      end
    else c :: get_substitution matched before after r'
  end.

(** Search for the first occurrence of [pat] in [s], scanning from the
    left, and replace it; [before] is the text already scanned.  [None]
    when [pat] does not occur. *)
Fixpoint replace_first_from (pat repl before s : jsstring)
  : option jsstring :=
  if is_prefix pat s then
    let after := skipn (List.length pat) s in
    Some (get_substitution pat before after repl ++ after)
  else
    match s with
    | [] => None
    | c :: s' =>
      option_map (cons c) (replace_first_from pat repl (before ++ [c]) s')
    end.

(** [s.replace(pat, repl)] with a string pattern: only the first
    occurrence is replaced; with no occurrence [s] is returned. *)
Definition replace (s pat repl : jsstring) : jsstring :=
  match replace_first_from pat repl [] s with
  | Some r => r
  | None => s
  end.

(** Global replacement of a non-empty literal [key]: matches are found
    left to right and do not overlap; [skip] counts the code units of
    the current match still to be passed over. *)
Fixpoint replace_all_from (key repl : jsstring) (skip : nat)
         (before s : jsstring) : jsstring :=
  match s with
  | [] => []
  | c :: s' =>
    match skip with
    | S k => replace_all_from key repl k (before ++ [c]) s'
    | O =>
      if is_prefix key s then
        get_substitution key before (skipn (List.length key) s) repl
          ++ replace_all_from key repl (List.length key - 1)
               (before ++ [c]) s'
      else c :: replace_all_from key repl 0 (before ++ [c]) s'
    end
  end.

(** Global replacement of the empty pattern: it matches at every
    position, including the end of the string. *)
Fixpoint replace_all_empty (repl before s : jsstring) : jsstring :=
  get_substitution [] before s repl ++
  match s with
  | [] => []
  | c :: s' => c :: replace_all_empty repl (before ++ [c]) s'
  end.

(** [s.replace(pattern, repl)] for the global pattern built from the
    escaped [key]: the escaping makes the pattern match exactly the code
    units of [key]. *)
Definition replace_all (s key repl : jsstring) : jsstring :=
  match key with
  | [] => replace_all_empty repl [] s
  | _ :: _ => replace_all_from key repl 0 [] s
  end.

(** [s.split(/[.,\n]/)]-style splitting on single code units: the
    segments between separators, empty ones included. *)
Fixpoint split_on (sep : code_unit -> bool) (cur s : jsstring)
  : list jsstring :=
  match s with
  | [] => [cur]
  | c :: s' =>
    if sep c then cur :: split_on sep [] s'
    else split_on sep (cur ++ [c]) s'
  end.

(** [parts.join(sep)] *)
Fixpoint join (sep : jsstring) (parts : list jsstring) : jsstring :=
  match parts with
  | [] => []
  | [p] => p
  | p :: rest => p ++ sep ++ join sep rest
  end.

(** [String(n)] for a safe integer, that is a whole number of magnitude
    at most 2^53 - 1: its decimal digits, with a minus sign when negative.
    (Beyond that range a number prints the shortest digits that read back
    to it, and from 10^21 on in exponent notation; statements that depend
    on the digits carry the bound.) *)
Definition number_to_string (n : Z) : jsstring :=
  js (NilZero.string_of_int (Z.to_int n)).

End JsString.

Import JsString.


(* ====================================================================== *)
(** ** JavaScript objects used as string-keyed maps *)
(* ====================================================================== *)

Module JsObject.

(** Own enumerable string-keyed properties, in creation order. *)
Definition obj (V : Type) := list (jsstring * V).

Section Ops.
Variable V : Type.

(** [o[k]]; [None] stands for [undefined]. *)
Fixpoint get (k : jsstring) (o : obj V) : option V :=
  match o with
  | [] => None
  | (k', v) :: o' => if JsString.eqb k k' then Some v else get k o'
  end.

(** [o[k] = v]: an existing property keeps its place, a new one is
    created last. *)
Fixpoint set (k : jsstring) (v : V) (o : obj V) : obj V :=
  match o with
  | [] => [(k, v)]
  | (k', v') :: o' =>
    if JsString.eqb k k' then (k', v) :: o' else (k', v') :: set k v o'
  end.
End Ops.

Definition is_digit (c : code_unit) : bool :=
  ((0x30 <=? c) && (c <=? 0x39))%N.

Definition decimal_value (k : jsstring) : N :=
  fold_left (fun acc c => (acc * 10 + (c - 0x30))%N) k 0%N.

(** A property key is an array index when it is the canonical decimal
    form of an integer in [0, 2^32 - 2]. *)
Definition array_index (k : jsstring) : option N :=
  match k with
  | [] => None
  | c :: rest =>
    if forallb is_digit k
       && ((c =? 0x30)%N && match rest with [] => true | _ => false end
           || negb (c =? 0x30)%N)
       && (decimal_value k <? 4294967295)%N
    then Some (decimal_value k)
    else None
  end.

Fixpoint insert_index (x : N * jsstring) (l : list (N * jsstring))
  : list (N * jsstring) :=
  match l with
  | [] => [x]
  | y :: l' =>
    if (fst x <=? fst y)%N then x :: l else y :: insert_index x l'
  end.

Definition sort_index (l : list (N * jsstring)) : list (N * jsstring) :=
  fold_right insert_index [] l.

Fixpoint index_keys (ks : list jsstring) : list (N * jsstring) :=
  match ks with
  | [] => []
  | k :: ks' =>
    match array_index k with
    | Some n => (n, k) :: index_keys ks'
    | None => index_keys ks'
    end
  end.

Definition is_string_key (k : jsstring) : bool :=
  match array_index k with Some _ => false | None => true end.

(** [Object.keys(o)] (OrdinaryOwnPropertyKeys): array-index keys in
    ascending numeric order, then the other keys in creation order. *)
Definition keys (V : Type) (o : obj V) : list jsstring :=
  let ks := List.map fst o in
  List.map snd (sort_index (index_keys ks)) ++ filter is_string_key ks.

(** The key whose assignment on a plain object reaches the accessor of
    [Object.prototype] instead of creating an own property. *)
Definition proto_key : jsstring := js "__proto__".

(** One source of [Object.assign(target, source)]: every own key of the
    source is assigned on the target.  The assignment of [proto_key] goes
    to the inherited setter, which creates no own property (it ignores a
    string and takes an object as the new prototype), so the own
    properties of the target stay as they are. *)
Definition assign1 (V : Type) (target source : obj V) : obj V :=
  fold_left
    (fun t k => match get k source with
                | Some v => if JsString.eqb k proto_key then t else set k v t
                | None => t
                end)
    (keys source) target.

(** [Object.assign({}, a, b)] *)
Definition assign (V : Type) (a b : obj V) : obj V :=
  assign1 (assign1 [] a) b.

End JsObject.

Import JsObject.

(* ====================================================================== *)
(** ** Data model of the guideline document and of the page state *)
(* ====================================================================== *)

Definition Lexicon := obj jsstring.

(** [model.params]: the literal token of each logical parameter. *)
Record Params := mkParams {
  aspectKey : option jsstring;
  stylizeKey : option jsstring;
  seedKey : option jsstring;
  negativeKey : option jsstring
}.

(** One entry of [guidelines.models]. *)
Record ModelRecord := mkModel {
  m_id : jsstring;
  m_name : jsstring;
  m_latest : jsstring;
  m_engines : list jsstring;
  m_params : option Params;
  m_template : option jsstring;
  m_lexicon : option Lexicon;
  m_guideline : list jsstring
}.

(** The guideline document as fetched or parsed; [d_source] is stamped by
    the loader. *)
Record GuidelineDocument := mkDocument {
  d_version : option jsstring;
  d_updatedAt : option jsstring;
  d_models : option (list ModelRecord);
  d_lexicon : option Lexicon;
  d_source : option jsstring
}.

(** The value of [window.GlobalGuidelines]. *)
Record GlobalGuidelinesT := mkGlobal {
  version : jsstring;
  updatedAt : jsstring;
  lexicon : Lexicon;
  models : option (list ModelRecord)
}.

(** What [createBuilder] closes over. *)
Record Builder := mkBuilder {
  modelRecord : ModelRecord;
  params : Params;
  template : jsstring
}.

(** The mutable page state the two scripts share. *)
Record Window := mkWindow {
  GlobalGuidelines : option GlobalGuidelinesT;
  builders : option (obj Builder);
  localStorage : obj jsstring
}.

(** [uiOptions]: three strings that may be empty or absent, and the
    stylization strength, an integer-valued number that may be absent. *)
Record BuildOptions := mkOptions {
  aspect : option jsstring;
  stylize : option Z;
  seed : option jsstring;
  negative : option jsstring
}.

(** The object returned by [SlotParser.parse]. *)
Record Slots := mkSlots {
  subject : jsstring;
  environment : jsstring;
  lighting : jsstring;
  materials : jsstring;
  mood : jsstring;
  composition : jsstring;
  details : jsstring;
  duration : Z
}.

(** [translatedSlots]: every slot after [String(v)] and translation. *)
Record TranslatedSlots := mkTranslated {
  t_subject : jsstring;
  t_environment : jsstring;
  t_lighting : jsstring;
  t_materials : jsstring;
  t_mood : jsstring;
  t_composition : jsstring;
  t_details : jsstring;
  t_duration : jsstring
}.

(** The object returned by a builder. *)
Record BuildResult := mkResult {
  full : jsstring;
  params_line : jsstring
}.

(* ====================================================================== *)
(** ** promptEngines.js *)
(* ====================================================================== *)

Module MiniTranslator.

Fixpoint insert_by_length (x : jsstring) (l : list jsstring)
  : list jsstring :=
  match l with
  | [] => [x]
  | y :: l' =>
    if (JsString.length x <? JsString.length y)%nat
    then y :: insert_by_length x l'
    else x :: l
  end.

(** [allKeys.sort((a, b) => b.length - a.length)]: a stable sort, longest
    key first. *)
Definition sort_by_length_desc (ks : list jsstring) : list jsstring :=
  fold_right insert_by_length [] ks.

(** One turn of the loop over [allKeys]. *)
Definition step (mergedLexicon : Lexicon) (output key : jsstring)
  : jsstring :=
  match get key mergedLexicon with
  | Some value =>
    if truthy value then replace_all output key value else output
  | None => output
  end.

Definition translate (koreanText : jsstring) (mergedLexicon : Lexicon)
  : jsstring :=
  let allKeys := sort_by_length_desc (keys mergedLexicon) in
  fold_left (step mergedLexicon) allKeys koreanText.

End MiniTranslator.

Module SlotParser.

(** The separator class [[.,\n]]. *)
Definition is_separator (c : code_unit) : bool :=
  ((c =? 0x2E) || (c =? 0x2C) || (c =? 0xA))%N.

(** [re.test(p)] for an alternation of literal keywords. *)
Definition test (alternatives : list jsstring) (p : jsstring) : bool :=
  existsb (fun kw => occurs kw p) alternatives.

Definition lighting_re := [js "조명"; js "빛"; js "광"; js "햇살"].
Definition materials_re :=
  [js "유리"; js "메탈"; js "금속"; js "플라스틱"; js "실크"; js "거울"].
Definition mood_re :=
  [js "분위기"; js "무드"; js "차분"; js "고급"; js "상쾌"; js "따뜻"].
Definition composition_re :=
  [js "구도"; js "상단"; js "하단"; js "3분할"; js "클로즈업"; js "원근"].

Definition default_subject := js "product beauty shot".
Definition default_environment := js "studio setting with clean background".
Definition default_lighting := js "soft diffuse lighting".
Definition default_materials := js "glass, metal, plastic".
Definition default_mood := js "elegant and fresh".
Definition default_composition := js "centered hero close-up".
Definition default_details :=
  js "crisp label, accurate color, subtle reflections".

(** [text.trim().split(/[.,\n]/).map(s => s.trim()).filter(Boolean)] *)
Definition segments (text : jsstring) : list jsstring :=
  filter truthy (List.map trim (split_on is_separator [] (trim text))).

(** [x || d] where [x] may be [undefined]. *)
Definition or_default (x : option jsstring) (d : jsstring) : jsstring :=
  match x with
  | Some s => or_else s d
  | None => d
  end.

Definition parse (text : jsstring) : Slots :=
  let parts := segments text in
  {| subject := or_default (nth_error parts 0) default_subject;
     environment := or_default (nth_error parts 1) default_environment;
     lighting := or_default (find (test lighting_re) parts) default_lighting;
     materials :=
       or_default (find (test materials_re) parts) default_materials;
     mood := or_default (find (test mood_re) parts) default_mood;
     composition :=
       or_default (find (test composition_re) parts) default_composition;
     details := or_else (join (js ", ") (skipn 2 parts)) default_details;
     duration := 4 |}.

End SlotParser.

Module PromptEngines.

(** An absent [params] object: every key is [undefined]. *)
Definition empty_params : Params :=
  {| aspectKey := None; stylizeKey := None;
     seedKey := None; negativeKey := None |}.

(** Interpolation of a possibly [undefined] string in a template
    literal. *)
Definition interpolate (x : option jsstring) : jsstring :=
  match x with
  | Some s => s
  | None => js "undefined"
  end.

(** Truthiness of an option that is a string or [undefined]. *)
Definition provided (x : option jsstring) : bool :=
  match x with
  | Some s => truthy s
  | None => false
  end.

(** The closure built by [createBuilder]. *)
Definition createBuilder (modelRecord : ModelRecord) : Builder :=
  {| modelRecord := modelRecord;
     params := match m_params modelRecord with
               | Some p => p
               | None => empty_params
               end;
     template := match m_template modelRecord with
                 | Some t => or_else t []
                 | None => []
                 end |}.

(** [(window.GlobalGuidelines && window.GlobalGuidelines.lexicon) || {}] *)
Definition global_lexicon (w : Window) : Lexicon :=
  match GlobalGuidelines w with
  | Some g => lexicon g
  | None => []
  end.

(** [modelRecord.lexicon || {}] *)
Definition model_lexicon (m : ModelRecord) : Lexicon :=
  match m_lexicon m with
  | Some l => l
  | None => []
  end.

(** [Object.assign({}, global lexicon, model lexicon)] *)
Definition mergedLexicon (w : Window) (m : ModelRecord) : Lexicon :=
  assign (global_lexicon w) (model_lexicon m).

(** The loop over [Object.entries(slots)]. *)
Definition translateSlots (slots : Slots) (lex : Lexicon)
  : TranslatedSlots :=
  {| t_subject := MiniTranslator.translate (subject slots) lex;
     t_environment := MiniTranslator.translate (environment slots) lex;
     t_lighting := MiniTranslator.translate (lighting slots) lex;
     t_materials := MiniTranslator.translate (materials slots) lex;
     t_mood := MiniTranslator.translate (mood slots) lex;
     t_composition := MiniTranslator.translate (composition slots) lex;
     t_details := MiniTranslator.translate (details slots) lex;
     t_duration :=
       MiniTranslator.translate (number_to_string (duration slots)) lex |}.

Definition aspectToken (params : Params) (uiOptions : BuildOptions)
  : jsstring :=
  if provided (aspect uiOptions)
  then interpolate (aspectKey params) ++ js " "
         ++ interpolate (aspect uiOptions)
  else [].

(** [uiOptions.stylize ?? 50] *)
Definition stylize_or_default (uiOptions : BuildOptions) : Z :=
  match stylize uiOptions with
  | Some n => n
  | None => 50
  end.

Definition stylizeToken (params : Params) (uiOptions : BuildOptions)
  : jsstring :=
  interpolate (stylizeKey params) ++ js " "
    ++ number_to_string (stylize_or_default uiOptions).

Definition seedToken (params : Params) (uiOptions : BuildOptions)
  : jsstring :=
  if provided (seed uiOptions)
  then interpolate (seedKey params) ++ js " "
         ++ interpolate (seed uiOptions)
  else [].

Definition negativeToken (params : Params) (uiOptions : BuildOptions)
           (lex : Lexicon) : jsstring :=
  if provided (negative uiOptions)
  then interpolate (negativeKey params) ++ js " "
         ++ MiniTranslator.translate (interpolate (negative uiOptions)) lex
  else [].

(** The chain of [.replace] calls followed by [.trim()]. *)
Definition fill (template : jsstring) (ts : TranslatedSlots)
           (engine aspectTok stylizeTok seedTok negativeTok : jsstring)
  : jsstring :=
  let t1 := replace template (js "{subject}") (t_subject ts) in
  let t2 := replace t1 (js "{environment}") (t_environment ts) in
  let t3 := replace t2 (js "{lighting}") (t_lighting ts) in
  let t4 := replace t3 (js "{materials}") (t_materials ts) in
  let t5 := replace t4 (js "{mood}") (t_mood ts) in
  let t6 := replace t5 (js "{composition}") (t_composition ts) in
  let t7 := replace t6 (js "{details}") (t_details ts) in
  let t8 := replace t7 (js "{duration}") (t_duration ts) in
  let t9 := replace t8 (js "{engine}") engine in
  let t10 := replace t9 (js "{aspect}") aspectTok in
  let t11 := replace t10 (js "{stylize}") stylizeTok in
  let t12 := replace t11 (js "{seed}") seedTok in
  let t13 := replace t12 (js "{negative}") negativeTok in
  trim t13.

(** The tail of the pattern, a greedy dot-star group followed by the
    end assertion under the [m] flag, tried at the head of [s]: the dot
    takes every code unit that is not a line terminator; the assertion
    holds at the end of input and before a line terminator.  The result
    is the captured group. *)
Fixpoint dot_star_eol (s : jsstring) : option jsstring :=
  match s with
  | [] => Some []
  | c :: s' =>
    if is_line_terminator c then Some []
    else
      match dot_star_eol s' with
      | Some captured => Some (c :: captured)
      | None => None
      end
  end.

Definition marker := js "Parameters:".

(** [filled.match] with the pattern of the source (the marker, the
    dot-star group, the end assertion, flag [m]): the leftmost position
    where the whole pattern matches; the result is group 1. *)
Fixpoint match_parameters (s : jsstring) : option jsstring :=
  match
    (if is_prefix marker s
     then dot_star_eol (skipn (List.length marker) s)
     else None)
  with
  | Some captured => Some captured
  | None =>
    match s with
    | [] => None
    | _ :: s' => match_parameters s'
    end
  end.

(** Group 1 of the match, or the empty string without a match,
    trimmed. *)
Definition paramsLine (filled : jsstring) : jsstring :=
  trim (match match_parameters filled with
        | Some captured => captured
        | None => []
        end).

(** The function returned by [createBuilder]; [w] is the page state at
    the time of the call. *)
Definition buildPrompt (b : Builder) (w : Window)
           (input engine : jsstring) (uiOptions : BuildOptions)
  : BuildResult :=
  let mergedLexicon := mergedLexicon w (modelRecord b) in
  let slots := SlotParser.parse input in
  let translatedSlots := translateSlots slots mergedLexicon in
  let filled :=
    fill (template b) translatedSlots engine
         (aspectToken (params b) uiOptions)
         (stylizeToken (params b) uiOptions)
         (seedToken (params b) uiOptions)
         (negativeToken (params b) uiOptions mergedLexicon) in
  {| full := filled; params_line := paramsLine filled |}.

(** [guidelines.models || []] *)
Definition models_or_empty (guidelines : GuidelineDocument)
  : list ModelRecord :=
  match d_models guidelines with
  | Some ms => ms
  | None => []
  end.

Definition installFromGuidelines (guidelines : GuidelineDocument)
           (w : Window) : Window :=
  {| GlobalGuidelines := GlobalGuidelines w;
     builders :=
       Some (fold_left (fun bs model => set (m_id model) (createBuilder model) bs)
                       (models_or_empty guidelines) []);
     localStorage := localStorage w |}.

End PromptEngines.

(* ====================================================================== *)
(** ** updateManager.js *)
(* ====================================================================== *)

Module UpdateManager.

(** The page state after the script has been loaded. *)
Definition initial_window (storage : obj jsstring) : Window :=
  {| GlobalGuidelines :=
       Some {| version := js "0.0.0"; updatedAt := [];
               lexicon := []; models := None |};
     builders := None;
     localStorage := storage |}.

Definition SOURCE_URL := js "guidelines.sourceUrl".
Definition AUTO_MINUTES := js "guidelines.autoMinutes".
Definition CACHED_JSON := js "guidelines.cachedJson".

Definition bundled_url := js "../assets/models.json".

(** [localStorage.getItem] and [localStorage.setItem] *)
Definition getItem (k : jsstring) (w : Window) : option jsstring :=
  get k (localStorage w).

Definition setItem (k v : jsstring) (w : Window) : Window :=
  {| GlobalGuidelines := GlobalGuidelines w;
     builders := builders w;
     localStorage := set k v (localStorage w) |}.

(** The URL the loader fetches from: the configured remote source when
    one is stored, the bundled file otherwise. *)
Definition configured_url (w : Window) : jsstring :=
  if PromptEngines.provided (getItem SOURCE_URL w)
  then PromptEngines.interpolate (getItem SOURCE_URL w)
  else bundled_url.

(** [data.source = tag] *)
Definition set_source (tag : jsstring) (data : GuidelineDocument)
  : GuidelineDocument :=
  {| d_version := d_version data; d_updatedAt := d_updatedAt data;
     d_models := d_models data; d_lexicon := d_lexicon data;
     d_source := Some tag |}.

(** [x || d] for a field that may be absent. *)
Definition field_or (x : option jsstring) (d : jsstring) : jsstring :=
  match x with
  | Some s => or_else s d
  | None => d
  end.

(** The statements of [loadGuidelines] after the [try]/[catch]: publish
    the document, install the builders, expose the model list. *)
Definition publish (data : GuidelineDocument) (w : Window) : Window :=
  let w1 :=
    {| GlobalGuidelines :=
         Some {| version := field_or (d_version data) (js "0.0.0");
                 updatedAt := field_or (d_updatedAt data) [];
                 lexicon := [];
                 models := None |};
       builders := builders w;
       localStorage := localStorage w |} in
  let w2 := PromptEngines.installFromGuidelines data w1 in
  {| GlobalGuidelines :=
       option_map
         (fun g => {| version := version g; updatedAt := updatedAt g;
                      lexicon := lexicon g;
                      models := Some (PromptEngines.models_or_empty data) |})
         (GlobalGuidelines w2);
     builders := builders w2;
     localStorage := localStorage w2 |}.

Section Host.

(** A thrown exception. *)
Variable error : Type.

(** The collaborators of the loader: [fetchJson] (network, response
    status and body parsing), [JSON.parse] and [JSON.stringify].  A
    left value is a thrown exception. *)
Variable fetchJson : jsstring -> error + GuidelineDocument.
Variable JSON_parse : jsstring -> error + GuidelineDocument.
Variable JSON_stringify : GuidelineDocument -> jsstring.

(** The body of the [try] block. *)
Definition try_fetch (w : Window) : error + (GuidelineDocument * Window) :=
  let sourceUrl := getItem SOURCE_URL w in
  let fetched :=
    if PromptEngines.provided sourceUrl
    then match fetchJson (PromptEngines.interpolate sourceUrl) with
         | inr data => inr (set_source (js "remote") data)
         | inl err => inl err
         end
    else match fetchJson bundled_url with
         | inr data => inr (set_source (js "local") data)
         | inl err => inl err
         end in
  match fetched with
  | inr data => inr (data, setItem CACHED_JSON (JSON_stringify data) w)
  | inl err => inl err
  end.

(** The body of the [catch] block. *)
Definition cache_fallback (err : error) (w : Window)
  : error + GuidelineDocument :=
  match getItem CACHED_JSON w with
  | Some cached =>
    if truthy cached then
      match JSON_parse cached with
      | inr data => inr (set_source (js "cache") data)
      | inl syntax_error => inl syntax_error
      end
    else inl err
  | None => inl err
  end.

(** [loadGuidelines()]: the returned document or the thrown exception,
    and the page state afterwards. *)
Definition loadGuidelines (w : Window)
  : (error + GuidelineDocument) * Window :=
  match try_fetch w with
  | inr (data, w') => (inr data, publish data w')
  | inl err =>
    match cache_fallback err w with
    | inr data => (inr data, publish data w)
    | inl thrown => (inl thrown, w)
    end
  end.

End Host.

End UpdateManager.

(* ====================================================================== *)
(** ** Templates as sequences of pieces *)
(* ====================================================================== *)

Module Template.

(** The placeholders the builder substitutes, in the order of its chain of
    [.replace] calls. *)
Inductive placeholder :=
| Subject | Environment | Lighting | Materials | Mood | Composition
| Details | Duration | Engine | Aspect | Stylize | Seed | Negative.

Definition all : list placeholder :=
  [Subject; Environment; Lighting; Materials; Mood; Composition;
   Details; Duration; Engine; Aspect; Stylize; Seed; Negative].

Definition name (p : placeholder) : jsstring :=
  match p with
  | Subject => js "subject"
  | Environment => js "environment"
  | Lighting => js "lighting"
  | Materials => js "materials"
  | Mood => js "mood"
  | Composition => js "composition"
  | Details => js "details"
  | Duration => js "duration"
  | Engine => js "engine"
  | Aspect => js "aspect"
  | Stylize => js "stylize"
  | Seed => js "seed"
  | Negative => js "negative"
  end.

Definition open_brace : code_unit := 0x7B%N.
Definition close_brace : code_unit := 0x7D%N.
Definition dollar : code_unit := 0x24%N.

Definition braced (n : jsstring) : jsstring :=
  open_brace :: n ++ [close_brace].

(** The text the builder searches for: the name in braces. *)
Definition token (p : placeholder) : jsstring := braced (name p).

Definition position (p : placeholder) : nat :=
  match p with
  | Subject => 0 | Environment => 1 | Lighting => 2 | Materials => 3
  | Mood => 4 | Composition => 5 | Details => 6 | Duration => 7
  | Engine => 8 | Aspect => 9 | Stylize => 10 | Seed => 11
  | Negative => 12
  end.

Definition placeholder_eqb (p q : placeholder) : bool :=
  Nat.eqb (position p) (position q).

(** The value the builder passes to the [.replace] call of a
    placeholder. *)
Definition resolved (ts : TranslatedSlots)
           (engine aspectTok stylizeTok seedTok negativeTok : jsstring)
           (p : placeholder) : jsstring :=
  match p with
  | Subject => t_subject ts
  | Environment => t_environment ts
  | Lighting => t_lighting ts
  | Materials => t_materials ts
  | Mood => t_mood ts
  | Composition => t_composition ts
  | Details => t_details ts
  | Duration => t_duration ts
  | Engine => engine
  | Aspect => aspectTok
  | Stylize => stylizeTok
  | Seed => seedTok
  | Negative => negativeTok
  end.

(** The values of one call of a builder. *)
Definition values (b : Builder) (w : Window) (input engine : jsstring)
           (uiOptions : BuildOptions) : placeholder -> jsstring :=
  let lex := PromptEngines.mergedLexicon w (modelRecord b) in
  resolved (PromptEngines.translateSlots (SlotParser.parse input) lex)
           engine
           (PromptEngines.aspectToken (params b) uiOptions)
           (PromptEngines.stylizeToken (params b) uiOptions)
           (PromptEngines.seedToken (params b) uiOptions)
           (PromptEngines.negativeToken (params b) uiOptions lex).

(** The chain of [.replace] calls as a loop over the placeholders. *)
Definition replace_each (ps : list placeholder)
           (v : placeholder -> jsstring) (t : jsstring) : jsstring :=
  fold_left (fun t p => replace t (token p) (v p)) ps t.

(** A template seen as a sequence of pieces: literal text, a placeholder
    of the builder, or a brace group with another name. *)
Inductive piece :=
| Text (s : jsstring)
| Hole (p : placeholder)
| Other (n : jsstring).

Definition brace_free (s : jsstring) : bool :=
  forallb (fun c => negb (c =? open_brace)%N) s.

Definition no_braces (s : jsstring) : bool :=
  forallb (fun c => negb (c =? open_brace)%N && negb (c =? close_brace)%N) s.

Definition dollar_free (s : jsstring) : bool :=
  forallb (fun c => negb (c =? dollar)%N) s.

(** A value that [.replace] inserts as it is and that cannot start a
    placeholder: no dollar sign, no opening brace. *)
Definition clean (s : jsstring) : bool := dollar_free s && brace_free s.

(** Literal text has no opening brace; another brace group has no brace
    inside and its name is none of the builder's. *)
Definition well_formed (pc : piece) : bool :=
  match pc with
  | Text s => brace_free s
  | Hole _ => true
  | Other n =>
    no_braces n && negb (existsb (JsString.eqb n) (List.map name all))
  end.

Definition piece_text (pc : piece) : jsstring :=
  match pc with
  | Text s => s
  | Hole p => token p
  | Other n => braced n
  end.

(** The template string a sequence of pieces stands for. *)
Definition flatten (pieces : list piece) : jsstring :=
  List.concat (List.map piece_text pieces).

Fixpoint holes (pieces : list piece) : list placeholder :=
  match pieces with
  | [] => []
  | Hole p :: rest => p :: holes rest
  | _ :: rest => holes rest
  end.

(** One placeholder filled in a piece, and in a sequence. *)
Definition subst_piece (p : placeholder) (v : jsstring) (pc : piece)
  : piece :=
  match pc with
  | Hole q => if placeholder_eqb p q then Text v else pc
  | _ => pc
  end.

Definition subst (p : placeholder) (v : jsstring) (pieces : list piece)
  : list piece :=
  List.map (subst_piece p v) pieces.

End Template.

(* ====================================================================== *)
(** ** Readings of the specification used for comparison *)
(* ====================================================================== *)

Module Reading.

(** The parameter field as the specification words it: the rendered text
    is cut into lines, the first line that begins with the marker is
    taken, and the field is what follows the marker on that line,
    trimmed; without such a line the field is empty. *)
Definition params_of_marker_line (filled : jsstring) : jsstring :=
  match find (is_prefix PromptEngines.marker)
             (split_on is_line_terminator [] filled) with
  | Some line => trim (skipn (List.length PromptEngines.marker) line)
  | None => []
  end.

(** Rendering as the specification words it: every placeholder of the
    template gives way to its value, inserted as it is; everything else,
    brace groups with other names included, stays. *)
Definition render (v : Template.placeholder -> jsstring)
           (pieces : list Template.piece) : jsstring :=
  List.concat (List.map (fun pc => match pc with
                              | Template.Hole p => v p
                              | _ => Template.piece_text pc
                              end) pieces).

End Reading.

(* ====================================================================== *)
(** ** Concrete hosts and documents used as test inputs *)
(* ====================================================================== *)

Module Fixture.

Definition empty_document : GuidelineDocument :=
  {| d_version := None; d_updatedAt := None; d_models := None;
     d_lexicon := None; d_source := None |}.

(** A host whose network is down: every fetch throws. *)
Definition offline_fetch (url : jsstring) : jsstring + GuidelineDocument :=
  inl (js "Failed to fetch " ++ url).

(** A parser that knows one document text, the empty object. *)
Definition parse_empty_object (text : jsstring)
  : jsstring + GuidelineDocument :=
  if JsString.eqb text (js "{}") then inr empty_document
  else inl (js "SyntaxError").

Definition stringify_empty_object (_ : GuidelineDocument) : jsstring :=
  js "{}".

(** A storage holding a cached document and no source URL. *)
Definition storage_with_cache : obj jsstring :=
  [(UpdateManager.CACHED_JSON, js "{}")].

(** A model whose template is the subject alone. *)
Definition subject_model : ModelRecord :=
  {| m_id := js "plain"; m_name := js "Plain"; m_latest := js "1";
     m_engines := [js "image"]; m_params := None;
     m_template := Some (js "{subject}"); m_lexicon := None;
     m_guideline := [] |}.

(** A document with a global lexicon and one model without lexicon. *)
Definition document_with_global_lexicon : GuidelineDocument :=
  {| d_version := Some (js "1.0.0"); d_updatedAt := Some (js "2024-01-01");
     d_models := Some [subject_model];
     d_lexicon := Some [(js "red", js "rouge")];
     d_source := None |}.

(** A host whose every fetch returns that document. *)
Definition online_fetch (_ : jsstring) : jsstring + GuidelineDocument :=
  inr document_with_global_lexicon.

(** Options with nothing set. *)
Definition no_options : BuildOptions :=
  {| aspect := None; stylize := None; seed := None; negative := None |}.

(** A builder over a template and a lexicon, with the usual keys. *)
Definition builder_of (template : jsstring) (lex : Lexicon) : Builder :=
  PromptEngines.createBuilder
    {| m_id := js "m"; m_name := js "M"; m_latest := js "1";
       m_engines := [];
       m_params := Some {| aspectKey := Some (js "--ar");
                           stylizeKey := Some (js "--s");
                           seedKey := Some (js "--seed");
                           negativeKey := Some (js "--no") |};
       m_template := Some template; m_lexicon := Some lex;
       m_guideline := [] |}.

End Fixture.

(* ====================================================================== *)
(** ** updateManager.js: the refresh scheduler *)
(* ====================================================================== *)

Module AutoUpdate.

(** The timers of the page: the active intervals with their handle and
    period in milliseconds, the next handle [setInterval] hands out, and
    the value of [window.__guidelinesInterval]. *)
Record Timers := mkTimers {
  active : list (nat * Z);
  next_handle : nat;
  guidelinesInterval : option nat
}.

(** A page on which no interval has been started yet. *)
Definition no_timers : Timers :=
  {| active := []; next_handle := 1; guidelinesInterval := None |}.

(** [n || d] for a number that is an integer or [NaN] ([None]): zero and
    [NaN] are falsy. *)
Definition number_or (n : option Z) (d : Z) : Z :=
  match n with
  | Some z => if (z =? 0)%Z then d else z
  | None => d
  end.

(** [Math.max(5, Number(minutes) || 60)] *)
Definition normalized_minutes (minutes : option Z) : Z :=
  Z.max 5 (number_or minutes 60).

(** [Math.max(5, Number(minutes) || 60) * 60 * 1000], for minutes small
    enough that both products are exact in the arithmetic of the code
    (at most 150119987579 minutes; statements about the value carry the
    bound). *)
Definition intervalMs (minutes : option Z) : Z :=
  (normalized_minutes minutes * 60 * 1000)%Z.

(** [window.clearInterval(handle)]: an unknown or [undefined] handle
    cancels nothing. *)
Definition clearInterval (handle : option nat) (t : Timers) : Timers :=
  match handle with
  | Some h =>
    {| active := filter (fun e => negb (Nat.eqb (fst e) h)) (active t);
       next_handle := next_handle t;
       guidelinesInterval := guidelinesInterval t |}
  | None => t
  end.

(** [window.setInterval(callback, ms)]: the new handle and the timers
    with the new interval. *)
Definition setInterval (ms : Z) (t : Timers) : nat * Timers :=
  (next_handle t,
   {| active := active t ++ [(next_handle t, ms)];
      next_handle := S (next_handle t);
      guidelinesInterval := guidelinesInterval t |}).

Definition scheduleAutoUpdate (minutes : option Z) (t : Timers) : Timers :=
  let t1 := clearInterval (guidelinesInterval t) t in
  let (handle, t2) := setInterval (intervalMs minutes) t1 in
  {| active := active t2;
     next_handle := next_handle t2;
     guidelinesInterval := Some handle |}.

End AutoUpdate.

(* ====================================================================== *)
(** ** The page script: convert, clear and save-settings handlers *)
(* ====================================================================== *)

Module App.

(** The values of the form controls the handlers read and write;
    [resultParams] is [elResult.dataset.params]. *)
Record Form := mkForm {
  elModel : jsstring;
  elEngine : jsstring;
  elKo : jsstring;
  elNeg : jsstring;
  elStylize : jsstring;
  elAspect : jsstring;
  elSeed : jsstring;
  customGuidelineArea : jsstring;
  elResult : jsstring;
  resultParams : option jsstring;
  elGuidelinesUrl : jsstring;
  elAutoInterval : jsstring
}.

Definition set_result (text : jsstring) (ps : option jsstring) (f : Form)
  : Form :=
  {| elModel := elModel f; elEngine := elEngine f; elKo := elKo f;
     elNeg := elNeg f; elStylize := elStylize f; elAspect := elAspect f;
     elSeed := elSeed f; customGuidelineArea := customGuidelineArea f;
     elResult := text; resultParams := ps;
     elGuidelinesUrl := elGuidelinesUrl f;
     elAutoInterval := elAutoInterval f |}.

(** The property names every plain object inherits: looking one of them
    up in the registry yields a function that is not a builder. *)
Definition inherited_names : list jsstring :=
  [js "constructor"; js "__proto__"; js "hasOwnProperty";
   js "isPrototypeOf"; js "propertyIsEnumerable"; js "toLocaleString";
   js "toString"; js "valueOf"; js "__defineGetter__";
   js "__defineSetter__"; js "__lookupGetter__"; js "__lookupSetter__"].

Definition inherited (k : jsstring) : bool :=
  existsb (JsString.eqb k) inherited_names.

(** [(window.PromptEngines.builders || {})[modelId]] as far as own
    entries go: the builder registered under the identifier, if any.  For
    an identifier in [inherited_names] without an own entry the real
    lookup yields an inherited function instead of [undefined]; statements
    about an absent builder carry the proviso [inherited modelId = false],
    and [convert] treats that case apart. *)
Definition lookup_builder (modelId : jsstring) (w : Window)
  : option Builder :=
  match builders w with
  | Some registry => get modelId registry
  | None => None
  end.

(** The first two statements of [renderGuideline]: the published model
    list, or an empty one, and its first record with the identifier. *)
Definition find_model (modelId : jsstring) (w : Window)
  : option ModelRecord :=
  let models :=
    match GlobalGuidelines w with
    | Some g => match models g with Some ms => ms | None => [] end
    | None => []
    end in
  find (fun m => JsString.eqb (m_id m) modelId) models.

(** The outcome of [renderGuideline(modelId)]: [true] when the call ends
    with a [TypeError].  With no published model under the identifier the
    function shows its placeholders and returns.  With a model it builds
    the summary, and [Object.entries(model.params)] throws when the model
    has no [params].  (The record type takes [engines] and [guideline] to
    be present, so their [join] calls succeed.) *)
Definition renderGuideline_throws (modelId : jsstring) (w : Window) : bool :=
  match find_model modelId w with
  | Some model =>
    match m_params model with
    | Some _ => false
    | None => true
    end
  | None => false
  end.

Definition no_builder_message : jsstring :=
  js "No builder available for the selected model.".

(** [customGuideline ? customGuideline + newline + sourceText
    : sourceText] *)
Definition prefixed (customGuideline sourceText : jsstring) : jsstring :=
  if truthy customGuideline
  then customGuideline ++ [0xA%N] ++ sourceText
  else sourceText.

Section Convert.

(** [Number] on the value of the range control, which always holds a
    number; the embedding takes it to be an integer. *)
Variable Number_of_range : jsstring -> Z.

(** The options object the convert handler builds from the controls. *)
Definition uiOptions_of (f : Form) : BuildOptions :=
  {| aspect := Some (trim (or_else (elAspect f) []));
     stylize := Some (if truthy (elStylize f)
                      then Number_of_range (elStylize f)
                      else 50%Z);
     seed := Some (trim (or_else (elSeed f) []));
     negative := Some (trim (or_else (elNeg f) [])) |}.

(** The click handler of the convert button.  [None] stands for the one
    case the embedding does not follow: the selected identifier is not a
    registered model but names an inherited property, which the handler
    then calls as if it were a builder. *)
Definition convert (f : Form) (w : Window) : option Form :=
  let modelId := elModel f in
  let engine := elEngine f in
  match lookup_builder modelId w with
  | Some builder =>
    let uiOptions := uiOptions_of f in
    let customGuideline := trim (or_else (customGuidelineArea f) []) in
    let sourceText := trim (elKo f) in
    let result :=
      PromptEngines.buildPrompt builder w
        (prefixed customGuideline sourceText) engine uiOptions in
    Some (set_result (full result) (Some (params_line result)) f)
  | None =>
    if inherited modelId then None
    else Some (set_result no_builder_message (resultParams f) f)
  end.

End Convert.

(** The click handler of the clear button. *)
Definition clear (f : Form) : Form :=
  {| elModel := elModel f; elEngine := elEngine f; elKo := [];
     elNeg := []; elStylize := js "50"; elAspect := [];
     elSeed := []; customGuidelineArea := [];
     elResult := []; resultParams := resultParams f;
     elGuidelinesUrl := elGuidelinesUrl f;
     elAutoInterval := elAutoInterval f |}.

(** [localStorage.removeItem] *)
Definition removeItem (k : jsstring) (w : Window) : Window :=
  {| GlobalGuidelines := GlobalGuidelines w;
     builders := builders w;
     localStorage :=
       filter (fun e => negb (JsString.eqb k (fst e))) (localStorage w) |}.

Section SaveSettings.

Variable error : Type.
Variable fetchJson : jsstring -> error + GuidelineDocument.
Variable JSON_parse : jsstring -> error + GuidelineDocument.
Variable JSON_stringify : GuidelineDocument -> jsstring.

(** [Number] on the text of the interval control: an integer, or [None]
    for [NaN]. *)
Variable Number_of_text : jsstring -> option Z.

(** The exception [Object.entries] throws on [undefined]. *)
Variable TypeError : error.

(** The two storage statements of the save handler. *)
Definition store_settings (f : Form) (w : Window) : Window :=
  let url := trim (elGuidelinesUrl f) in
  let minutes :=
    Z.max 5 (AutoUpdate.number_or (Number_of_text (elAutoInterval f)) 60) in
  let w1 := if truthy url
            then UpdateManager.setItem UpdateManager.SOURCE_URL url w
            else removeItem UpdateManager.SOURCE_URL w in
  UpdateManager.setItem UpdateManager.AUTO_MINUTES
                        (number_to_string minutes) w1.

(** The click handler of the save button, as far as storage, published
    configuration and timers go: settings are stored, the guidelines are
    reloaded, the guideline summary of the selected model is rendered, and
    only when both succeed is the refresh rescheduled.  The first
    component is the exception the handler ends with, if any. *)
Definition saveSettings (f : Form) (w : Window) (t : AutoUpdate.Timers)
  : option error * Window * AutoUpdate.Timers :=
  let minutes :=
    Z.max 5 (AutoUpdate.number_or (Number_of_text (elAutoInterval f)) 60) in
  let w2 := store_settings f w in
  match UpdateManager.loadGuidelines fetchJson JSON_parse JSON_stringify w2
  with
  | (inl err, w3) => (Some err, w3, t)
  | (inr _, w3) =>
    if renderGuideline_throws (elModel f) w3
    then (Some TypeError, w3, t)
    else (None, w3, AutoUpdate.scheduleAutoUpdate (Some minutes) t)
  end.

End SaveSettings.

End App.

(* ====================================================================== *)
(** ** Further test inputs *)
(* ====================================================================== *)

Module Sample.

(** [Number] on a text of decimal digits. *)
Definition number_of_digits (s : jsstring) : option Z :=
  match s with
  | [] => Some 0%Z
  | _ :: _ =>
    if forallb JsObject.is_digit s
    then Some (Z.of_N (JsObject.decimal_value s))
    else None
  end.

Definition range_number (s : jsstring) : Z :=
  match number_of_digits s with
  | Some z => z
  | None => 0%Z
  end.



(** A parser that rejects every text. *)
Definition parse_nothing (_ : jsstring) : jsstring + GuidelineDocument :=
  inl (js "SyntaxError").

(** A form with a description, a custom guideline and blank options, for
    a given model identifier. *)
Definition form_for (modelId : jsstring) : App.Form :=
  {| App.elModel := modelId; App.elEngine := js "image";
     App.elKo := js " red shoe, wooden table ";
     App.elNeg := js "  "; App.elStylize := js "70";
     App.elAspect := js " "; App.elSeed := [];
     App.customGuidelineArea := js "Be concise";
     App.elResult := []; App.resultParams := None;
     App.elGuidelinesUrl := js " https://example.org/models.json ";
     App.elAutoInterval := js "3" |}.

Definition form : App.Form := form_for (js "plain").






(** The page after a first load from a host that is online. *)
Definition loaded_window : Window :=
  snd (UpdateManager.loadGuidelines Fixture.online_fetch
         Fixture.parse_empty_object Fixture.stringify_empty_object
         (UpdateManager.initial_window [])).

End Sample.

(* ====================================================================== *)
(** * Properties *)
(* ====================================================================== *)

Import JsString JsObject.

(** ** Sanity checks of the string primitives *)

Example js_ascii : js "Parameters:" =
  [80; 97; 114; 97; 109; 101; 116; 101; 114; 115; 58]%N.
Proof. reflexivity. Qed.

Example js_hangul : js "조명" = [0xC870; 0xBA85]%N.
Proof. reflexivity. Qed.

Example js_hangul_digit : js "3분할" = [0x33; 0xBD84; 0xD560]%N.
Proof. reflexivity. Qed.

Example number_to_string_80 : number_to_string 80 = js "80".
Proof. reflexivity. Qed.

Example replace_first_only :
  replace (js "a-b-c") (js "-") (js "+") = js "a+b-c".
Proof. reflexivity. Qed.

Example replace_all_nonoverlapping :
  replace_all (js "aaaaa") (js "aa") (js "b") = js "bba".
Proof. reflexivity. Qed.

Example replace_all_empty_key : replace_all (js "4") [] (js "x") = js "x4x".
Proof. reflexivity. Qed.

Example trim_both_ends : trim (js "  a b  ") = js "a b".
Proof. reflexivity. Qed.

Example keys_order :
  keys [(js "b", 1); (js "10", 2); (js "a", 3); (js "2", 4); (js "01", 5)]
  = [js "2"; js "10"; js "b"; js "a"; js "01"].
Proof. reflexivity. Qed.

(** ** Strings: truthiness *)

Lemma truthy_true_iff (s : jsstring) : truthy s = true <-> s <> [].
Proof.
  destruct s; simpl; split; intro H; congruence.
Qed.

Lemma or_else_truthy (s d : jsstring) : truthy s = true -> or_else s d = s.
Proof. unfold or_else; intros ->; reflexivity. Qed.

Lemma or_else_nonempty (s d : jsstring) : d <> [] -> or_else s d <> [].
Proof.
  unfold or_else; intro Hd.
  destruct (truthy s) eqn:E; [apply truthy_true_iff; exact E | exact Hd].
Qed.

(** ** Slot extraction *)

Section SlotParserFacts.

Import SlotParser.

Lemma segments_truthy (text p : jsstring) :
  In p (segments text) -> truthy p = true.
Proof.
  unfold segments; intro H; apply filter_In in H; tauto.
Qed.

Lemma or_default_selected (parts : list jsstring) (x : option jsstring)
      (d : jsstring) :
  (forall p, x = Some p -> In p parts) ->
  (forall p, In p parts -> truthy p = true) ->
  or_default x d = match x with Some p => p | None => d end.
Proof.
  intros Hin Hall; destruct x as [p|]; simpl; [|reflexivity].
  apply or_else_truthy, Hall, Hin; reflexivity.
Qed.

Lemma or_default_nonempty (x : option jsstring) (d : jsstring) :
  d <> [] -> or_default x d <> [].
Proof.
  intro Hd; destruct x; simpl; [apply or_else_nonempty|]; exact Hd.
Qed.

Lemma join_truthy (sep p : jsstring) (rest : list jsstring) :
  truthy p = true -> truthy (join sep (p :: rest)) = true.
Proof.
  intro Hp; destruct p as [|c p]; [discriminate|].
  destruct rest; reflexivity.
Qed.

Lemma skipn_incl (A : Type) (n : nat) (l : list A) (x : A) :
  In x (skipn n l) -> In x l.
Proof.
  revert l; induction n as [|n IH]; intros [|y l] H; simpl in *; auto.
Qed.

Lemma details_selected (parts : list jsstring) (d : jsstring) :
  (forall p, In p parts -> truthy p = true) ->
  or_else (join (js ", ") (skipn 2 parts)) d =
  match skipn 2 parts with
  | [] => d
  | _ :: _ => join (js ", ") (skipn 2 parts)
  end.
Proof.
  intro Hall.
  destruct (skipn 2 parts) as [|p rest] eqn:E; [reflexivity|].
  apply or_else_truthy, join_truthy, Hall.
  apply skipn_incl with (n := 2%nat); rewrite E; left; reflexivity.
Qed.

End SlotParserFacts.

(** C6.  For every input text, [SlotParser.parse] returns seven non-empty
    string slots and the duration 4.  Each slot is the segment the
    heuristic selects when there is one and its fixed default otherwise:
    the subject and the environment are the first and second segment, the
    four keyword slots are the first segment matching their keyword set,
    and the details are the segments from the third on joined by a comma
    and a space. *)
Theorem parse_slots_nonempty_with_defaults (text : jsstring) :
  let parts := SlotParser.segments text in
  let s := SlotParser.parse text in
  (subject s <> [] /\ environment s <> [] /\ lighting s <> [] /\
   materials s <> [] /\ mood s <> [] /\ composition s <> [] /\
   details s <> []) /\
  duration s = 4%Z /\
  subject s = match nth_error parts 0 with
              | Some p => p | None => js "product beauty shot" end /\
  environment s = match nth_error parts 1 with
                  | Some p => p
                  | None => js "studio setting with clean background" end /\
  lighting s = match find (SlotParser.test SlotParser.lighting_re) parts with
               | Some p => p | None => js "soft diffuse lighting" end /\
  materials s = match find (SlotParser.test SlotParser.materials_re) parts with
                | Some p => p | None => js "glass, metal, plastic" end /\
  mood s = match find (SlotParser.test SlotParser.mood_re) parts with
           | Some p => p | None => js "elegant and fresh" end /\
  composition s =
    match find (SlotParser.test SlotParser.composition_re) parts with
    | Some p => p | None => js "centered hero close-up" end /\
  details s = match skipn 2 parts with
              | [] => js "crisp label, accurate color, subtle reflections"
              | _ :: _ => join (js ", ") (skipn 2 parts) end.
Proof.
  intros parts s.
  assert (Hall : forall p, In p parts -> truthy p = true)
    by (intros p; apply segments_truthy).
  split.
  { subst s; unfold SlotParser.parse;
      cbn [subject environment lighting materials mood composition details];
      fold parts.
    repeat split;
      try (apply or_default_nonempty; discriminate);
      apply or_else_nonempty; discriminate. }
  split; [reflexivity|].
  subst s; unfold SlotParser.parse;
      cbn [subject environment lighting materials mood composition details];
      fold parts.
  repeat split.
  - apply or_default_selected with (parts := parts); auto.
    intros p H; eapply nth_error_In; exact H.
  - apply or_default_selected with (parts := parts); auto.
    intros p H; eapply nth_error_In; exact H.
  - apply or_default_selected with (parts := parts); auto.
    intros p H; apply find_some in H; tauto.
  - apply or_default_selected with (parts := parts); auto.
    intros p H; apply find_some in H; tauto.
  - apply or_default_selected with (parts := parts); auto.
    intros p H; apply find_some in H; tauto.
  - apply or_default_selected with (parts := parts); auto.
    intros p H; apply find_some in H; tauto.
  - apply details_selected; exact Hall.
Qed.

(** ** The documented end-to-end example *)

(** C2.  The model record of the example (template
    [{subject} in {environment}, {lighting}. Parameters: {aspect} {stylize}],
    parameter keys [--ar] and [--s], no lexicon), built on the input text
    [a red shoe, on a wooden table] with aspect [16:9] and stylize 80 under
    an empty published lexicon: the slots are subject [a red shoe],
    environment [on a wooden table] and the default lighting; the rendered
    text ends with [Parameters: --ar 16:9 --s 80]; the parameter field is
    [--ar 16:9 --s 80].  Whatever the engine, the other fields of the
    record and the rest of the page state are. *)
Theorem end_to_end_example
        (id name latest engine ver upd : jsstring)
        (engines guideline : list jsstring)
        (published : option (list ModelRecord))
        (registry : option (obj Builder)) (storage : obj jsstring) :
  let m :=
    {| m_id := id; m_name := name; m_latest := latest; m_engines := engines;
       m_params := Some {| aspectKey := Some (js "--ar");
                           stylizeKey := Some (js "--s");
                           seedKey := None; negativeKey := None |};
       m_template :=
         Some (js "{subject} in {environment}, {lighting}. Parameters: {aspect} {stylize}");
       m_lexicon := None; m_guideline := guideline |} in
  let w :=
    {| GlobalGuidelines :=
         Some {| version := ver; updatedAt := upd; lexicon := [];
                 models := published |};
       builders := registry; localStorage := storage |} in
  let uiOptions :=
    {| aspect := Some (js "16:9"); stylize := Some 80%Z;
       seed := None; negative := None |} in
  let input := js "a red shoe, on a wooden table" in
  let result :=
    PromptEngines.buildPrompt (PromptEngines.createBuilder m) w input engine
                              uiOptions in
  subject (SlotParser.parse input) = js "a red shoe" /\
  environment (SlotParser.parse input) = js "on a wooden table" /\
  lighting (SlotParser.parse input) = SlotParser.default_lighting /\
  full result =
    js "a red shoe in on a wooden table, soft diffuse lighting. "
      ++ js "Parameters: --ar 16:9 --s 80" /\
  params_line result = js "--ar 16:9 --s 80".
Proof.
  intros m w uiOptions input result.
  repeat split; vm_compute; reflexivity.
Qed.

(** ** The translator is not idempotent *)

(** C10.  There are a lexicon, one of whose translation values contains
    another of its keys, and a text on which translating twice differs
    from translating once: with [aa -> b] and [b -> a], the text [aaaa]
    becomes [aa], and [aa] becomes [a], because the key [b] matches the
    text that the replacement of [aa] has just introduced. *)
Theorem translate_not_idempotent :
  exists (L : Lexicon) (T : jsstring),
    (exists k1 v1 k2 v2,
        k1 <> k2 /\ get k1 L = Some v1 /\ get k2 L = Some v2 /\
        occurs k2 v1 = true) /\
    MiniTranslator.translate (MiniTranslator.translate T L) L
    <> MiniTranslator.translate T L.
Proof.
  exists [(js "aa", js "b"); (js "b", js "a")], (js "aaaa").
  split.
  - exists (js "aa"), (js "b"), (js "b"), (js "a").
    repeat split; try reflexivity.
    vm_compute; discriminate.
  - vm_compute; discriminate.
Qed.

(** ** Parameter tokens *)

(** With empty options the aspect, seed and negative tokens are the empty
    string; whatever the options, the stylize token is the stylize key of
    the model, a space, and the value of the option or 50, and so never
    empty. *)
Lemma tokens_of_empty_options
      (ps : Params) (lex : Lexicon) (stylize_option : option Z) :
  let uiOptions :=
    {| aspect := Some []; stylize := stylize_option;
       seed := Some []; negative := Some [] |} in
  PromptEngines.aspectToken ps uiOptions = [] /\
  PromptEngines.seedToken ps uiOptions = [] /\
  PromptEngines.negativeToken ps uiOptions lex = [] /\
  PromptEngines.stylizeToken ps uiOptions
  = PromptEngines.interpolate (stylizeKey ps) ++ js " "
      ++ number_to_string (match stylize_option with
                           | Some n => n
                           | None => 50%Z
                           end) /\
  PromptEngines.stylizeToken ps uiOptions <> [].
Proof.
  intro uiOptions; repeat split.
  unfold PromptEngines.stylizeToken.
  intro H; apply app_eq_nil in H; destruct H as [_ H].
  discriminate H.
Qed.

(** ** Guideline resolution *)

Section ResolverFacts.

Import UpdateManager.

Variable error : Type.
Variable fetchJson : jsstring -> error + GuidelineDocument.
Variable JSON_parse : jsstring -> error + GuidelineDocument.
Variable JSON_stringify : GuidelineDocument -> jsstring.

Local Abbreviation load :=
  (loadGuidelines fetchJson JSON_parse JSON_stringify).

Lemma try_fetch_failure (w : Window) (err : error) :
  fetchJson (configured_url w) = inl err ->
  try_fetch fetchJson JSON_stringify w = inl err.
Proof.
  unfold try_fetch, configured_url; intro H.
  destruct (PromptEngines.provided (getItem SOURCE_URL w));
    rewrite H; reflexivity.
Qed.

Lemma try_fetch_success (w : Window) (data : GuidelineDocument) :
  fetchJson (configured_url w) = inr data ->
  exists tag,
    try_fetch fetchJson JSON_stringify w
    = inr (set_source tag data,
           setItem CACHED_JSON (JSON_stringify (set_source tag data)) w).
Proof.
  unfold try_fetch, configured_url; intro H.
  destruct (PromptEngines.provided (getItem SOURCE_URL w));
    rewrite H; eexists; reflexivity.
Qed.


(** C5.  When the configured fetch fails and the storage holds no cached
    document, [loadGuidelines] throws the failure of the fetch and leaves
    the page state as it was: the published configuration, the builder
    registry and the storage are unchanged. *)
Theorem no_cache_propagates_failure (w : Window) (err : error) :
  fetchJson (configured_url w) = inl err ->
  PromptEngines.provided (getItem CACHED_JSON w) = false ->
  load w = (inl err, w) /\
  GlobalGuidelines (snd (load w)) = GlobalGuidelines w /\
  builders (snd (load w)) = builders w.
Proof.
  intros Hfetch Hnone.
  assert (E : load w = (inl err, w)).
  { unfold loadGuidelines.
    rewrite (try_fetch_failure _ Hfetch).
    unfold cache_fallback.
    destruct (getItem CACHED_JSON w) as [cached|]; [|reflexivity].
    simpl in Hnone; rewrite Hnone; reflexivity. }
  rewrite E; repeat split.
Qed.

End ResolverFacts.


Lemma no_cache_propagates_failure_witness :
  let w := UpdateManager.initial_window [] in
  let load :=
    UpdateManager.loadGuidelines Fixture.offline_fetch
      Fixture.parse_empty_object Fixture.stringify_empty_object in
  load w = (inl (js "Failed to fetch ../assets/models.json"), w) /\
  GlobalGuidelines (snd (load w)) = GlobalGuidelines w /\
  builders (snd (load w)) = builders w.
Proof.
  apply (@no_cache_propagates_failure jsstring
           Fixture.offline_fetch Fixture.parse_empty_object
           Fixture.stringify_empty_object
           (UpdateManager.initial_window [])
           (js "Failed to fetch ../assets/models.json"));
    reflexivity.
Defined.

(** ** Translation leaves a text without key occurrences alone *)

Lemma occurs_cons_false (p : jsstring) (c : code_unit) (s : jsstring) :
  occurs p (c :: s) = false ->
  is_prefix p (c :: s) = false /\ occurs p s = false.
Proof.
  simpl occurs; intro H; apply orb_false_iff in H; exact H.
Qed.

Lemma occurs_nil_pattern (s : jsstring) : occurs [] s = true.
Proof. destruct s; reflexivity. Qed.

Lemma replace_all_from_absent (key repl : jsstring) :
  forall s before,
    occurs key s = false ->
    replace_all_from key repl 0 before s = s.
Proof.
  induction s as [|c s IH]; intros before H; [reflexivity|].
  apply occurs_cons_false in H; destruct H as [Hp Ho].
  cbn [replace_all_from]; rewrite Hp, (IH _ Ho); reflexivity.
Qed.

Lemma replace_all_absent (s key repl : jsstring) :
  occurs key s = false -> replace_all s key repl = s.
Proof.
  intro H; destruct key as [|a key].
  - rewrite occurs_nil_pattern in H; discriminate.
  - apply replace_all_from_absent; exact H.
Qed.

Lemma translate_keys_absent (lex : Lexicon) (text : jsstring) :
  (forall k v, get k lex = Some v -> truthy v = true ->
               occurs k text = false) ->
  forall ks, fold_left (MiniTranslator.step lex) ks text = text.
Proof.
  intros H ks; induction ks as [|k ks IH]; [reflexivity|].
  cbn [fold_left].
  replace (MiniTranslator.step lex text k) with text; [exact IH|].
  unfold MiniTranslator.step.
  destruct (get k lex) as [v|] eqn:E; [|reflexivity].
  destruct (truthy v) eqn:T; [|reflexivity].
  symmetry; apply replace_all_absent; eapply H; eassumption.
Qed.

Lemma translate_absent (lex : Lexicon) (text : jsstring) :
  (forall k v, get k lex = Some v -> truthy v = true ->
               occurs k text = false) ->
  MiniTranslator.translate text lex = text.
Proof.
  intro H; unfold MiniTranslator.translate; apply translate_keys_absent, H.
Qed.

Lemma occurs_in_four (k : jsstring) :
  k <> [] -> k <> js "4" -> occurs k (js "4") = false.
Proof.
  intros Hnil Hfour.
  destruct k as [|a [|b k]]; [congruence| |].
  - change (js "4") with [52%N] in *.
    simpl; rewrite orb_false_r, andb_true_r.
    apply N.eqb_neq; intro E; apply Hfour; rewrite E; reflexivity.
  - change (js "4") with [52%N]; simpl.
    rewrite andb_false_r; reflexivity.
Qed.

(** C8, as the code has it.  The duration slot is turned into the string
    [4] and translated like every other slot.  When no lexicon entry with
    a non-empty value has the key [4] or the empty key, the translation
    leaves it alone and the value substituted for the duration placeholder
    is the string [4]. *)
Theorem duration_unchanged_without_matching_key
        (input : jsstring) (lex : Lexicon) :
  (forall k v, get k lex = Some v -> truthy v = true ->
               k <> [] /\ k <> js "4") ->
  t_duration (PromptEngines.translateSlots (SlotParser.parse input) lex)
  = js "4".
Proof.
  intro H.
  change (MiniTranslator.translate (js "4") lex = js "4").
  apply translate_absent.
  intros k v Hk Hv; destruct (H k v Hk Hv); apply occurs_in_four; assumption.
Qed.

Lemma duration_unchanged_without_matching_key_witness :
  t_duration (PromptEngines.translateSlots
                (SlotParser.parse (js "빨간 구두, 나무 탁자"))
                [(js "빨간", js "red"); (js "구두", js "shoe")])
  = js "4".
Proof.
  apply (@duration_unchanged_without_matching_key
           (js "빨간 구두, 나무 탁자")
           [(js "빨간", js "red"); (js "구두", js "shoe")]).
  intros k v Hk Hv.
  cbn [get] in Hk.
  destruct (JsString.eqb k (js "빨간")) eqn:E1.
  - unfold JsString.eqb in E1.
    destruct (list_eq_dec N.eq_dec k (js "빨간")) as [->|]; [|discriminate].
    split; discriminate.
  - destruct (JsString.eqb k (js "구두")) eqn:E2; [|discriminate].
    unfold JsString.eqb in E2.
    destruct (list_eq_dec N.eq_dec k (js "구두")) as [->|]; [|discriminate].
    split; discriminate.
Defined.

(** C8, as the claim has it, fails: a lexicon entry with key [4] rewrites
    the duration, here into [four], in the slot and in the rendered
    text. *)
Lemma duration_translated_counterexample :
  t_duration (PromptEngines.translateSlots
                (SlotParser.parse (js "a red shoe"))
                [(js "4", js "four")])
  = js "four" /\
  js "four" <> js "4" /\
  full (PromptEngines.buildPrompt
          (Fixture.builder_of (js "{subject}, {duration}s")
                              [(js "4", js "four")])
          (UpdateManager.initial_window [])
          (js "a red shoe") (js "video") Fixture.no_options)
  = js "a red shoe, fours".
Proof.
  repeat split; try (vm_compute; reflexivity).
  vm_compute; discriminate.
Qed.

(** ** The parameter field *)

Lemma is_prefix_app_long (m : jsstring) :
  forall a b, (List.length m <= List.length a)%nat ->
              is_prefix m (a ++ b) = is_prefix m a.
Proof.
  induction m as [|x m IH]; intros a b Hlen; [reflexivity|].
  destruct a as [|y a]; simpl in Hlen; [lia|].
  simpl; rewrite IH by lia; reflexivity.
Qed.

Lemma is_prefix_self_app (m s : jsstring) : is_prefix m (m ++ s) = true.
Proof.
  induction m as [|x m IH]; [reflexivity|].
  simpl; rewrite N.eqb_refl, IH; reflexivity.
Qed.

Lemma skipn_self_app (m s : jsstring) : skipn (List.length m) (m ++ s) = s.
Proof. induction m; simpl; auto. Qed.

Lemma dot_star_eol_line (rest tail : jsstring) :
  forallb (fun c => negb (is_line_terminator c)) rest = true ->
  match tail with [] => true | c :: _ => is_line_terminator c end = true ->
  PromptEngines.dot_star_eol (rest ++ tail) = Some rest.
Proof.
  intros Hrest Htail; induction rest as [|c rest IH].
  - destruct tail as [|c tail]; [reflexivity|].
    simpl; rewrite Htail; reflexivity.
  - simpl in Hrest; apply andb_true_iff in Hrest; destruct Hrest as [Hc Hr].
    apply negb_true_iff in Hc.
    simpl; rewrite Hc, (IH Hr); reflexivity.
Qed.

Lemma match_parameters_absent (s : jsstring) :
  occurs PromptEngines.marker s = false ->
  PromptEngines.match_parameters s = None.
Proof.
  induction s as [|c s IH]; intro H.
  - reflexivity.
  - apply occurs_cons_false in H; destruct H as [Hp Ho].
    cbn [PromptEngines.match_parameters]; rewrite Hp; apply IH, Ho.
Qed.

Lemma match_parameters_skip (pre rest : jsstring) :
  occurs PromptEngines.marker (pre ++ removelast PromptEngines.marker)
  = false ->
  PromptEngines.match_parameters (pre ++ PromptEngines.marker ++ rest)
  = PromptEngines.match_parameters (PromptEngines.marker ++ rest).
Proof.
  induction pre as [|c pre IH]; intro H; [reflexivity|].
  rewrite <- app_comm_cons in H.
  apply occurs_cons_false in H; destruct H as [Hp Ho].
  rewrite <- app_comm_cons.
  cbn [PromptEngines.match_parameters].
  assert (E : is_prefix PromptEngines.marker
                        (c :: pre ++ PromptEngines.marker ++ rest) = false).
  { replace (c :: pre ++ PromptEngines.marker ++ rest)
      with ((c :: pre ++ removelast PromptEngines.marker)
              ++ [58%N] ++ rest).
    - rewrite is_prefix_app_long; [exact Hp|].
      simpl; rewrite length_app; simpl; lia.
    - simpl; rewrite <- app_assoc; reflexivity. }
  rewrite E; apply IH, Ho.
Qed.

(** C3, as the code has it.  The parameter field is governed by the first
    occurrence of the marker [Parameters:] anywhere in the rendered text,
    at the beginning of a line or not: it is the text between that
    occurrence and the end of its line, trimmed.  When the marker does not
    occur in the rendered text the field is the empty string. *)
Theorem params_line_after_first_marker (pre rest tail : jsstring) :
  occurs PromptEngines.marker (pre ++ removelast PromptEngines.marker)
  = false ->
  forallb (fun c => negb (is_line_terminator c)) rest = true ->
  match tail with [] => true | c :: _ => is_line_terminator c end = true ->
  PromptEngines.paramsLine (pre ++ PromptEngines.marker ++ rest ++ tail)
  = trim rest /\
  (forall filled,
      occurs PromptEngines.marker filled = false ->
      PromptEngines.paramsLine filled = []).
Proof.
  intros Hpre Hrest Htail; split.
  - unfold PromptEngines.paramsLine.
    rewrite (match_parameters_skip _ _ Hpre).
    destruct (PromptEngines.marker ++ rest ++ tail) as [|c s] eqn:E;
      [discriminate E|].
    cbn [PromptEngines.match_parameters].
    rewrite <- E, is_prefix_self_app, skipn_self_app.
    rewrite (dot_star_eol_line _ _ Hrest Htail); reflexivity.
  - intros filled H; unfold PromptEngines.paramsLine.
    rewrite (match_parameters_absent _ H); reflexivity.
Qed.

Lemma params_line_after_first_marker_witness :
  PromptEngines.paramsLine
    (js "a red shoe. " ++ PromptEngines.marker ++ js " --ar 16:9 --s 80 "
        ++ [10%N] ++ js "second line")
  = js "--ar 16:9 --s 80".
Proof.
  apply (@params_line_after_first_marker
           (js "a red shoe. ") (js " --ar 16:9 --s 80 ")
           ([10%N] ++ js "second line"));
    reflexivity.
Defined.

(** C3, as the claim has it, fails: in the text
    [a red shoe. Parameters: --s 50] no line begins with the marker, so
    the field read line by line is empty, while the code yields
    [--s 50]. *)
Lemma params_line_counterexample :
  let filled := js "a red shoe. Parameters: --s 50" in
  is_prefix PromptEngines.marker filled = false /\
  existsb is_line_terminator filled = false /\
  Reading.params_of_marker_line filled = [] /\
  PromptEngines.paramsLine filled = js "--s 50" /\
  PromptEngines.paramsLine filled <> Reading.params_of_marker_line filled.
Proof.
  repeat split; try (vm_compute; reflexivity).
  vm_compute; discriminate.
Qed.

(** ** Objects: lookup after assignment *)

Section ObjectFacts.

Variable V : Type.

Lemma eqb_eq (a b : jsstring) : JsString.eqb a b = true <-> a = b.
Proof.
  unfold JsString.eqb; destruct (list_eq_dec N.eq_dec a b); split;
    congruence.
Qed.

Lemma eqb_refl (a : jsstring) : JsString.eqb a a = true.
Proof. apply eqb_eq; reflexivity. Qed.

Lemma eqb_neq (a b : jsstring) : JsString.eqb a b = false <-> a <> b.
Proof.
  unfold JsString.eqb; destruct (list_eq_dec N.eq_dec a b); split;
    congruence.
Qed.

Lemma get_after_set (k : jsstring) (v : V) (o : obj V) :
  get k (set k v o) = Some v.
Proof.
  induction o as [|[k' v'] o IH]; simpl.
  - rewrite eqb_refl; reflexivity.
  - destruct (JsString.eqb k k') eqn:E; simpl; rewrite E; auto.
Qed.

Lemma get_after_set_other (k k0 : jsstring) (v : V) (o : obj V) :
  k <> k0 -> get k (set k0 v o) = get k o.
Proof.
  intro Hne; induction o as [|[k' v'] o IH]; simpl.
  - apply eqb_neq in Hne; rewrite Hne; reflexivity.
  - destruct (JsString.eqb k0 k') eqn:E0; simpl.
    + apply eqb_eq in E0; subst k'.
      apply eqb_neq in Hne; rewrite Hne; reflexivity.
    + rewrite IH; reflexivity.
Qed.

Lemma get_some_in_keys_fst (k : jsstring) (v : V) (o : obj V) :
  get k o = Some v -> In k (List.map fst o).
Proof.
  induction o as [|[k' v'] o IH]; simpl; [discriminate|].
  destruct (JsString.eqb k k') eqn:E.
  - apply eqb_eq in E; auto.
  - auto.
Qed.

Lemma insert_index_in (x y : N * jsstring) (l : list (N * jsstring)) :
  In y (insert_index x l) <-> y = x \/ In y l.
Proof.
  induction l as [|z l IH]; simpl.
  - intuition.
  - destruct (fst x <=? fst z)%N; simpl; [intuition|].
    rewrite IH; intuition.
Qed.

Lemma sort_index_in (y : N * jsstring) (l : list (N * jsstring)) :
  In y (sort_index l) <-> In y l.
Proof.
  induction l as [|x l IH]; simpl; [tauto|].
  rewrite insert_index_in, IH; intuition.
Qed.

Lemma index_keys_in (k : jsstring) (n : N) (ks : list jsstring) :
  In k ks -> array_index k = Some n -> In (n, k) (index_keys ks).
Proof.
  intros Hin Hidx; induction ks as [|k' ks IH]; simpl in *; [tauto|].
  destruct Hin as [->|Hin].
  - rewrite Hidx; left; reflexivity.
  - destruct (array_index k'); [right|]; auto.
Qed.

Lemma keys_complete (k : jsstring) (v : V) (o : obj V) :
  get k o = Some v -> In k (keys o).
Proof.
  intro H; apply get_some_in_keys_fst in H.
  unfold keys; apply in_or_app.
  destruct (array_index k) as [n|] eqn:E.
  - left; apply in_map_iff; exists (n, k); split; [reflexivity|].
    apply sort_index_in, index_keys_in; assumption.
  - right; apply filter_In; split; [exact H|].
    unfold is_string_key; rewrite E; reflexivity.
Qed.

(** The loop of [Object.assign] over a list of keys of the source. *)
Lemma get_after_assign_loop (source : obj V) (k : jsstring) :
  forall (ks : list jsstring) (target : obj V),
    get k (fold_left
             (fun t k0 => match get k0 source with
                          | Some v =>
                            if JsString.eqb k0 proto_key then t
                            else set k0 v t
                          | None => t
                          end) ks target)
    = if JsString.eqb k proto_key then get k target
      else if existsb (JsString.eqb k) ks
           then match get k source with
                | Some v => Some v
                | None => get k target
                end
           else get k target.
Proof.
  induction ks as [|k0 ks IH]; intro target;
    [cbn [fold_left existsb]; destruct (JsString.eqb k proto_key);
     reflexivity|].
  cbn [fold_left existsb]; rewrite IH.
  destruct (JsString.eqb k proto_key) eqn:P.
  - apply eqb_eq in P; subst k.
    destruct (get k0 source) as [v0|]; [|reflexivity].
    destruct (JsString.eqb k0 proto_key) eqn:P0; [reflexivity|].
    apply get_after_set_other; intro E; subst k0.
    rewrite eqb_refl in P0; discriminate P0.
  - destruct (JsString.eqb k k0) eqn:E.
    + apply eqb_eq in E; subst k0; cbn [orb]; rewrite P.
      destruct (get k source) as [v|] eqn:G.
      * rewrite get_after_set; destruct (existsb _ ks); reflexivity.
      * destruct (existsb _ ks); reflexivity.
    + apply eqb_neq in E; cbn [orb].
      destruct (get k0 source) as [v0|]; [|reflexivity].
      destruct (JsString.eqb k0 proto_key); [reflexivity|].
      rewrite (get_after_set_other _ _ E); reflexivity.
Qed.

Lemma get_after_assign1 (target source : obj V) (k : jsstring) :
  get k (assign1 target source)
  = if JsString.eqb k proto_key then get k target
    else match get k source with
         | Some v => Some v
         | None => get k target
         end.
Proof.
  unfold assign1; rewrite get_after_assign_loop.
  destruct (JsString.eqb k proto_key); [reflexivity|].
  destruct (existsb (JsString.eqb k) (keys source)) eqn:E; [reflexivity|].
  destruct (get k source) as [v|] eqn:G; [|reflexivity].
  apply keys_complete in G.
  assert (existsb (JsString.eqb k) (keys source) = true).
  { apply existsb_exists; exists k; split; [exact G | apply eqb_refl]. }
  congruence.
Qed.

Lemma get_after_assign (a b : obj V) (k : jsstring) :
  get k (assign a b)
  = if JsString.eqb k proto_key then None
    else match get k b with
         | Some v => Some v
         | None => get k a
         end.
Proof.
  unfold assign; rewrite !get_after_assign1.
  destruct (JsString.eqb k proto_key); [reflexivity|].
  destruct (get k b); [reflexivity|].
  destruct (get k a); reflexivity.
Qed.

End ObjectFacts.

(** ** The lexicon a builder uses *)

Lemma registry_entries_are_builders (id : jsstring) (b : Builder) :
  forall (ms : list ModelRecord) (acc : obj Builder),
    get id (fold_left
              (fun bs model =>
                 set (m_id model) (PromptEngines.createBuilder model) bs)
              ms acc) = Some b ->
    (exists m, In m ms /\ b = PromptEngines.createBuilder m) \/
    get id acc = Some b.
Proof.
  induction ms as [|m ms IH]; intros acc H; [right; exact H|].
  cbn [fold_left] in H; apply IH in H.
  destruct H as [[m' [Hin Hb]]|H].
  - left; exists m'; split; [right; exact Hin | exact Hb].
  - destruct (list_eq_dec N.eq_dec id (m_id m)) as [->|Hne].
    + rewrite get_after_set in H; left; exists m; split;
        [left; reflexivity | congruence].
    + rewrite (get_after_set_other _ _ Hne) in H; right; exact H.
Qed.

Section LexiconFacts.

Import UpdateManager.

Variable error : Type.
Variable fetchJson : jsstring -> error + GuidelineDocument.
Variable JSON_parse : jsstring -> error + GuidelineDocument.
Variable JSON_stringify : GuidelineDocument -> jsstring.

Local Abbreviation load :=
  (loadGuidelines fetchJson JSON_parse JSON_stringify).

Lemma load_success_publishes (w w' : Window) (doc : GuidelineDocument) :
  load w = (inr doc, w') -> exists w0, w' = publish doc w0.
Proof.
  unfold loadGuidelines; intro H.
  destruct (try_fetch fetchJson JSON_stringify w) as [err|[data w1]].
  - destruct (cache_fallback JSON_parse err w) as [thrown|data].
    + discriminate H.
    + injection H as <- <-; eexists; reflexivity.
  - injection H as <- <-; eexists; reflexivity.
Qed.

(** C1, as the code has it.  A builder merges the lexicon published in the
    page state, as base, with the lexicon of its model, which overrides it
    on identical keys; an entry under the key [__proto__] is lost in the
    merge, because its assignment goes to the inherited setter.  A
    resolution publishes an empty lexicon whatever the document holds;
    after it, every builder in the registry is the builder of a model of
    the resolved document, and for every model of the document the merged
    lexicon is [Object.assign] of the model's own lexicon into an empty
    object: it has the model's entries (but one under [__proto__]) and no
    other. *)
Theorem merged_lexicon_after_resolution
        (w w' : Window) (doc : GuidelineDocument) :
  load w = (inr doc, w') ->
  (forall (w0 : Window) (m : ModelRecord) (k : jsstring),
      get k (PromptEngines.mergedLexicon w0 m)
      = if JsString.eqb k proto_key then None
        else match get k (PromptEngines.model_lexicon m) with
             | Some v => Some v
             | None => get k (PromptEngines.global_lexicon w0)
             end) /\
  PromptEngines.global_lexicon w' = [] /\
  (forall registry id b,
      builders w' = Some registry -> get id registry = Some b ->
      exists m, In m (PromptEngines.models_or_empty doc) /\
                b = PromptEngines.createBuilder m) /\
  (forall m, In m (PromptEngines.models_or_empty doc) ->
      PromptEngines.mergedLexicon w' m
      = assign [] (PromptEngines.model_lexicon m) /\
      forall k, get k (PromptEngines.mergedLexicon w' m)
                = if JsString.eqb k proto_key then None
                  else get k (PromptEngines.model_lexicon m)).
Proof.
  intro H; apply load_success_publishes in H; destruct H as [w0 ->].
  split; [intros; apply get_after_assign|].
  split; [reflexivity|].
  split.
  - intros registry id b Hreg Hget.
    cbn in Hreg; injection Hreg as <-.
    apply registry_entries_are_builders in Hget.
    destruct Hget as [Hget|Hget]; [exact Hget | discriminate Hget].
  - intros m _; split; [reflexivity|].
    intro k; unfold PromptEngines.mergedLexicon.
    rewrite get_after_assign.
    destruct (JsString.eqb k proto_key); [reflexivity|].
    destruct (get k (PromptEngines.model_lexicon m)); reflexivity.
Qed.

End LexiconFacts.

Lemma merged_lexicon_after_resolution_witness :
  let w := UpdateManager.initial_window [] in
  let doc :=
    UpdateManager.set_source (js "local")
                             Fixture.document_with_global_lexicon in
  let w' :=
    snd (UpdateManager.loadGuidelines Fixture.online_fetch
           Fixture.parse_empty_object Fixture.stringify_empty_object w) in
  PromptEngines.global_lexicon w' = [] /\
  PromptEngines.mergedLexicon w' Fixture.subject_model = [].
Proof.
  intros w doc w'.
  destruct (@merged_lexicon_after_resolution jsstring
              Fixture.online_fetch Fixture.parse_empty_object
              Fixture.stringify_empty_object w w' doc)
    as [_ [Hglobal [_ Hmodel]]].
  - reflexivity.
  - split; [exact Hglobal|].
    destruct (Hmodel Fixture.subject_model) as [Hmerged _].
    + left; reflexivity.
    + exact Hmerged.
Defined.

(** C1, as the claim has it, fails: the resolved document carries the
    global entry [red -> rouge] and its model has no lexicon, yet after the
    resolution the builder of that model leaves [red] untranslated, where
    the merge of the document's lexicon with the model's would give
    [rouge]. *)
Lemma document_lexicon_counterexample :
  let w := UpdateManager.initial_window [] in
  let r :=
    UpdateManager.loadGuidelines Fixture.online_fetch
      Fixture.parse_empty_object Fixture.stringify_empty_object w in
  let m := Fixture.subject_model in
  let claimed :=
    assign [(js "red", js "rouge")] (PromptEngines.model_lexicon m) in
  (exists doc, fst r = inr doc /\
               d_lexicon doc = Some [(js "red", js "rouge")] /\
               In m (PromptEngines.models_or_empty doc)) /\
  get (js "red") (PromptEngines.model_lexicon m) = None /\
  MiniTranslator.translate (js "red") claimed = js "rouge" /\
  get (js "red") (PromptEngines.mergedLexicon (snd r) m) = None /\
  full (PromptEngines.buildPrompt (PromptEngines.createBuilder m) (snd r)
          (js "red") (js "image") Fixture.no_options)
  = js "red".
Proof.
  intros w r m claimed.
  split.
  { eexists; split; [reflexivity|].
    split; [reflexivity | left; reflexivity]. }
  repeat split; vm_compute; reflexivity.
Qed.

(** ** Rendering a template *)

Section RenderFacts.

Import Template.

Lemma placeholder_eqb_eq (p q : placeholder) :
  placeholder_eqb p q = true <-> p = q.
Proof.
  destruct p, q; unfold placeholder_eqb; simpl; split; intro H;
    solve [reflexivity | discriminate H].
Qed.

Lemma placeholder_eqb_refl (p : placeholder) : placeholder_eqb p p = true.
Proof. apply placeholder_eqb_eq; reflexivity. Qed.

Lemma placeholder_eq_dec (p q : placeholder) : {p = q} + {p <> q}.
Proof.
  destruct (placeholder_eqb p q) eqn:E.
  - left; apply placeholder_eqb_eq; exact E.
  - right; intro H; apply placeholder_eqb_eq in H; congruence.
Qed.

Lemma fill_is_replace_each
      (t : jsstring) (ts : TranslatedSlots)
      (engine aTok sTok seTok nTok : jsstring) :
  PromptEngines.fill t ts engine aTok sTok seTok nTok
  = trim (replace_each all (resolved ts engine aTok sTok seTok nTok) t).
Proof. reflexivity. Qed.

Lemma get_substitution_plain (matched before after repl : jsstring) :
  dollar_free repl = true ->
  get_substitution matched before after repl = repl.
Proof.
  induction repl as [|c r IH]; intro H; [reflexivity|].
  cbn [dollar_free forallb] in H; apply andb_true_iff in H.
  destruct H as [Hc Hr]; apply negb_true_iff in Hc.
  cbn [get_substitution]; unfold dollar in Hc; rewrite Hc.
  f_equal; apply IH, Hr.
Qed.

Lemma replace_first_from_here (pat repl before s : jsstring) :
  is_prefix pat s = true ->
  replace_first_from pat repl before s
  = Some (get_substitution pat before (skipn (List.length pat) s) repl
            ++ skipn (List.length pat) s).
Proof.
  intro H; destruct s; cbn [replace_first_from]; rewrite H; reflexivity.
Qed.

Lemma replace_first_from_next (pat repl before : jsstring)
      (c : code_unit) (s : jsstring) :
  is_prefix pat (c :: s) = false ->
  replace_first_from pat repl before (c :: s)
  = option_map (cons c) (replace_first_from pat repl (before ++ [c]) s).
Proof.
  intro H; cbn [replace_first_from]; rewrite H; reflexivity.
Qed.

(** Text without an opening brace is passed over by the search for a
    token. *)
Lemma replace_first_from_text (p : placeholder) (v : jsstring) :
  forall s before rest,
    brace_free s = true ->
    replace_first_from (token p) v before (s ++ rest)
    = option_map (app s)
                 (replace_first_from (token p) v (before ++ s) rest).
Proof.
  induction s as [|c s IH]; intros before rest H.
  - rewrite app_nil_r; simpl.
    destruct (replace_first_from (token p) v before rest); reflexivity.
  - cbn [brace_free forallb] in H; apply andb_true_iff in H.
    destruct H as [Hc Hs]; apply negb_true_iff in Hc.
    rewrite <- app_comm_cons.
    rewrite replace_first_from_next.
    + rewrite (IH _ _ Hs), <- app_assoc; simpl.
      destruct (replace_first_from (token p) v (before ++ c :: s) rest);
        reflexivity.
    + unfold token, braced; cbn [is_prefix].
      rewrite N.eqb_sym, Hc; reflexivity.
Qed.

(** A brace group that is not the token is passed over too. *)
Lemma replace_first_from_group (p : placeholder) (v : jsstring)
      (n before rest : jsstring) :
  is_prefix (token p) (braced n ++ rest) = false ->
  brace_free n = true ->
  replace_first_from (token p) v before (braced n ++ rest)
  = option_map (app (braced n))
               (replace_first_from (token p) v (before ++ braced n) rest).
Proof.
  intros Hp Hn; unfold braced in *.
  rewrite <- app_comm_cons in *.
  rewrite replace_first_from_next by exact Hp.
  rewrite replace_first_from_text.
  - rewrite <- app_assoc; simpl.
    destruct (replace_first_from (token p) v _ rest); reflexivity.
  - unfold brace_free in *; rewrite forallb_app.
    apply andb_true_iff; split; [exact Hn | reflexivity].
Qed.

Lemma token_differs (p q : placeholder) (rest : jsstring) :
  p <> q -> is_prefix (token p) (token q ++ rest) = false.
Proof.
  intro H; destruct p, q; try congruence; reflexivity.
Qed.

Lemma name_no_braces (p : placeholder) : no_braces (name p) = true.
Proof. destruct p; reflexivity. Qed.

Lemma name_listed (p : placeholder) : In (name p) (List.map name all).
Proof. apply in_map; destruct p; simpl; tauto. Qed.

Lemma no_braces_brace_free (s : jsstring) :
  no_braces s = true -> brace_free s = true.
Proof.
  unfold no_braces, brace_free; induction s as [|c s IH]; simpl;
    [reflexivity|].
  intro H; apply andb_true_iff in H; destruct H as [Hc Hs].
  apply andb_true_iff in Hc; destruct Hc as [Hc _].
  rewrite Hc, (IH Hs); reflexivity.
Qed.

(** Two names closed by a brace, one a prefix of what follows the other:
    the names are equal. *)
Lemma closed_names_equal :
  forall (a b rest : jsstring),
    no_braces a = true -> no_braces b = true ->
    is_prefix (a ++ [close_brace]) ((b ++ [close_brace]) ++ rest) = true ->
    a = b.
Proof.
  unfold no_braces.
  induction a as [|x a IH]; intros [|y b] rest Ha Hb H;
    cbn [app is_prefix forallb] in H, Ha, Hb.
  - reflexivity.
  - exfalso.
    apply andb_true_iff in H; destruct H as [H _]; apply N.eqb_eq in H.
    subst y; rewrite N.eqb_refl, andb_false_r in Hb; discriminate Hb.
  - exfalso.
    apply andb_true_iff in H; destruct H as [H _]; apply N.eqb_eq in H.
    subst x; rewrite N.eqb_refl, andb_false_r in Ha; discriminate Ha.
  - apply andb_true_iff in H; destruct H as [Hxy H]; apply N.eqb_eq in Hxy.
    apply andb_true_iff in Ha; destruct Ha as [_ Ha].
    apply andb_true_iff in Hb; destruct Hb as [_ Hb].
    subst y; f_equal; eapply IH; eassumption.
Qed.

Lemma token_not_other (p : placeholder) (n rest : jsstring) :
  well_formed (Other n) = true ->
  is_prefix (token p) (braced n ++ rest) = false.
Proof.
  intro H; cbn [well_formed] in H; apply andb_true_iff in H.
  destruct H as [Hn Hnew]; apply negb_true_iff in Hnew.
  destruct (is_prefix (token p) (braced n ++ rest)) eqn:E; [|reflexivity].
  exfalso.
  unfold token, braced in E; rewrite <- app_comm_cons in E.
  cbn [is_prefix] in E; apply andb_true_iff in E; destruct E as [_ E].
  apply closed_names_equal in E; [|apply name_no_braces | exact Hn].
  assert (Hex : existsb (JsString.eqb n) (List.map name all) = true).
  { apply existsb_exists; exists (name p); split;
      [apply name_listed | apply eqb_eq; congruence]. }
  congruence.
Qed.

Lemma subst_without_hole (p : placeholder) (v : jsstring) :
  forall pieces, ~ In p (holes pieces) -> subst p v pieces = pieces.
Proof.
  induction pieces as [|pc pieces IH]; intro H; [reflexivity|].
  unfold subst in *; cbn [List.map].
  destruct pc as [s|q|n]; cbn [holes] in H; cbn [subst_piece].
  - rewrite (IH H); reflexivity.
  - destruct (placeholder_eqb p q) eqn:E.
    + apply placeholder_eqb_eq in E; subst q.
      exfalso; apply H; left; reflexivity.
    + rewrite IH; [reflexivity|].
      intro Hin; apply H; right; exact Hin.
  - rewrite (IH H); reflexivity.
Qed.

Lemma subst_hole_same (p : placeholder) (v : jsstring)
      (pieces : list piece) :
  subst p v (Hole p :: pieces) = Text v :: subst p v pieces.
Proof.
  unfold subst; cbn [List.map subst_piece].
  rewrite placeholder_eqb_refl; reflexivity.
Qed.

Lemma subst_hole_other (p q : placeholder) (v : jsstring)
      (pieces : list piece) :
  p <> q -> subst p v (Hole q :: pieces) = Hole q :: subst p v pieces.
Proof.
  intro Hne; unfold subst; cbn [List.map subst_piece].
  destruct (placeholder_eqb p q) eqn:E; [|reflexivity].
  apply placeholder_eqb_eq in E; congruence.
Qed.

Lemma flatten_cons (pc : piece) (pieces : list piece) :
  flatten (pc :: pieces) = piece_text pc ++ flatten pieces.
Proof. reflexivity. Qed.

(** The search of [.replace] over a well-formed template in which the
    placeholder occurs at most once: it finds the hole, if there is one,
    and puts the value in its place. *)
Lemma replace_first_from_pieces (p : placeholder) (v : jsstring) :
  forall pieces before,
    forallb well_formed pieces = true ->
    NoDup (holes pieces) ->
    (In p (holes pieces) -> dollar_free v = true) ->
    replace_first_from (token p) v before (flatten pieces)
    = if in_dec placeholder_eq_dec p (holes pieces)
      then Some (flatten (subst p v pieces))
      else None.
Proof.
  induction pieces as [|pc pieces IH]; intros before Hwf Hnd Hv.
  - destruct p; reflexivity.
  - cbn [forallb] in Hwf; apply andb_true_iff in Hwf.
    destruct Hwf as [Hpc Hwf].
    rewrite flatten_cons.
    destruct pc as [s|q|n]; cbn [piece_text holes] in *.
    + rewrite replace_first_from_text by exact Hpc.
      rewrite (IH _ Hwf Hnd Hv).
      destruct (in_dec placeholder_eq_dec p (holes pieces)); reflexivity.
    + inversion Hnd as [|q' l Hnotin Hnd']; subst.
      destruct (placeholder_eq_dec p q) as [->|Hne].
      * rewrite replace_first_from_here by apply is_prefix_self_app.
        rewrite skipn_self_app.
        rewrite get_substitution_plain by (apply Hv; left; reflexivity).
        destruct (in_dec placeholder_eq_dec q (q :: holes pieces)) as [_|N];
          [|exfalso; apply N; left; reflexivity].
        rewrite subst_hole_same.
        rewrite subst_without_hole by exact Hnotin; reflexivity.
      * unfold token at 2.
        rewrite replace_first_from_group.
        -- rewrite (IH _ Hwf Hnd').
           ++ rewrite (subst_hole_other v pieces Hne).
              destruct (in_dec placeholder_eq_dec p (holes pieces)) as [i|n];
                destruct (in_dec placeholder_eq_dec p (q :: holes pieces))
                as [i'|n'].
              ** reflexivity.
              ** exfalso; apply n'; right; exact i.
              ** exfalso; destruct i' as [->|i']; [apply Hne | apply n];
                   auto.
              ** reflexivity.
           ++ intro Hin; apply Hv; right; exact Hin.
        -- apply (token_differs _ Hne).
        -- apply no_braces_brace_free, name_no_braces.
    + rewrite replace_first_from_group.
      * rewrite (IH _ Hwf Hnd Hv).
        destruct (in_dec placeholder_eq_dec p (holes pieces)); reflexivity.
      * apply token_not_other; exact Hpc.
      * cbn [well_formed] in Hpc; apply andb_true_iff in Hpc.
        apply no_braces_brace_free; tauto.
Qed.

Lemma replace_pieces (p : placeholder) (v : jsstring)
      (pieces : list piece) :
  forallb well_formed pieces = true ->
  NoDup (holes pieces) ->
  (In p (holes pieces) -> dollar_free v = true) ->
  replace (flatten pieces) (token p) v = flatten (subst p v pieces).
Proof.
  intros Hwf Hnd Hv; unfold replace.
  rewrite replace_first_from_pieces by assumption.
  destruct (in_dec placeholder_eq_dec p (holes pieces)) as [i|n];
    [reflexivity|].
  rewrite subst_without_hole by exact n; reflexivity.
Qed.

Lemma holes_subst (p : placeholder) (v : jsstring) :
  forall pieces,
    holes (subst p v pieces)
    = filter (fun q => negb (placeholder_eqb p q)) (holes pieces).
Proof.
  induction pieces as [|pc pieces IH]; [reflexivity|].
  unfold subst in *; cbn [List.map].
  destruct pc as [s|q|n]; cbn [subst_piece holes]; try exact IH.
  cbn [filter]; destruct (placeholder_eqb p q); cbn [negb holes];
    [exact IH | rewrite IH; reflexivity].
Qed.

Lemma well_formed_subst (p : placeholder) (v : jsstring) :
  forall pieces,
    forallb well_formed pieces = true ->
    (In p (holes pieces) -> brace_free v = true) ->
    forallb well_formed (subst p v pieces) = true.
Proof.
  induction pieces as [|pc pieces IH]; intros Hwf Hv; [reflexivity|].
  cbn [forallb] in Hwf; apply andb_true_iff in Hwf; destruct Hwf as [Hpc Hwf].
  unfold subst in *; cbn [List.map forallb]; apply andb_true_iff; split.
  - destruct pc as [s|q|n]; cbn [subst_piece]; try exact Hpc.
    destruct (placeholder_eqb p q) eqn:E; [|reflexivity].
    apply placeholder_eqb_eq in E; subst q.
    apply Hv; left; reflexivity.
  - apply IH; [exact Hwf|].
    intro Hin; apply Hv.
    destruct pc; cbn [holes]; auto; right; exact Hin.
Qed.

Lemma clean_parts (s : jsstring) :
  clean s = true -> dollar_free s = true /\ brace_free s = true.
Proof. unfold clean; intro H; apply andb_true_iff in H; exact H. Qed.

(** The whole chain of [.replace] calls over such a template. *)
Lemma replace_each_pieces (v : placeholder -> jsstring) :
  forall (ps : list placeholder) (pieces : list piece),
    forallb well_formed pieces = true ->
    NoDup (holes pieces) ->
    (forall p, In p (holes pieces) -> clean (v p) = true) ->
    replace_each ps v (flatten pieces)
    = flatten (fold_left (fun pcs p => subst p (v p) pcs) ps pieces).
Proof.
  induction ps as [|p ps IH]; intros pieces Hwf Hnd Hv; [reflexivity|].
  unfold replace_each in *; cbn [fold_left].
  rewrite replace_pieces; try assumption.
  - apply IH.
    + apply well_formed_subst; [exact Hwf|].
      intro Hin; apply clean_parts, Hv, Hin.
    + rewrite holes_subst; apply NoDup_filter; exact Hnd.
    + intros q Hq; rewrite holes_subst in Hq.
      apply filter_In in Hq; apply Hv; tauto.
  - intro Hin; apply clean_parts, Hv, Hin.
Qed.

Lemma subst_all_pieces (v : placeholder -> jsstring) :
  forall (ps : list placeholder) (pieces : list piece),
    fold_left (fun pcs p => subst p (v p) pcs) ps pieces
    = List.map (fun pc => fold_left (fun pc p => subst_piece p (v p) pc)
                                    ps pc) pieces.
Proof.
  induction ps as [|p ps IH]; intro pieces; cbn [fold_left].
  - rewrite map_id; reflexivity.
  - rewrite IH; unfold subst; rewrite map_map; reflexivity.
Qed.

Lemma flatten_subst_all (v : placeholder -> jsstring)
      (pieces : list piece) :
  flatten (fold_left (fun pcs p => subst p (v p) pcs) all pieces)
  = Reading.render v pieces.
Proof.
  rewrite subst_all_pieces; unfold flatten, Reading.render.
  rewrite map_map; f_equal; apply map_ext; intro pc.
  destruct pc as [s|q|n]; [reflexivity | | reflexivity].
  destruct q; reflexivity.
Qed.

End RenderFacts.

(** C9, as the code has it.  Rendering replaces, in the fixed order from
    subject to negative, the first occurrence of each placeholder by its
    resolved value, and trims the result.  For a template made of literal
    text without opening brace, placeholders of the builder each occurring
    at most once, and brace groups with other names, and when the values of
    the placeholders that occur contain neither a dollar sign nor an
    opening brace, the rendered text is the template with every placeholder
    replaced by its value as it is and the other brace groups left in
    place, trimmed. *)
Theorem render_inserts_values_verbatim
        (b : Builder) (w : Window) (input engine : jsstring)
        (uiOptions : BuildOptions) (pieces : list Template.piece) :
  template b = Template.flatten pieces ->
  forallb Template.well_formed pieces = true ->
  NoDup (Template.holes pieces) ->
  (forall p, In p (Template.holes pieces) ->
             Template.clean (Template.values b w input engine uiOptions p)
             = true) ->
  full (PromptEngines.buildPrompt b w input engine uiOptions)
  = trim (Reading.render (Template.values b w input engine uiOptions)
                         pieces).
Proof.
  intros Ht Hwf Hnd Hv.
  unfold PromptEngines.buildPrompt; cbn [full].
  rewrite fill_is_replace_each, Ht.
  fold (Template.values b w input engine uiOptions).
  rewrite replace_each_pieces by assumption.
  rewrite flatten_subst_all; reflexivity.
Qed.

Lemma render_inserts_values_verbatim_witness :
  full (PromptEngines.buildPrompt
          (Fixture.builder_of
             (js " {subject} in {environment}, {style}. Parameters: {stylize} ")
             [(js "구두", js "shoe")])
          (UpdateManager.initial_window [])
          (js "빨간 구두, 나무 탁자") (js "image") Fixture.no_options)
  = js "빨간 shoe in 나무 탁자, {style}. Parameters: --s 50".
Proof.
  apply (@render_inserts_values_verbatim
           (Fixture.builder_of
              (js " {subject} in {environment}, {style}. Parameters: {stylize} ")
              [(js "구두", js "shoe")])
           (UpdateManager.initial_window [])
           (js "빨간 구두, 나무 탁자") (js "image") Fixture.no_options
           [Template.Text (js " "); Template.Hole Template.Subject;
            Template.Text (js " in "); Template.Hole Template.Environment;
            Template.Text (js ", "); Template.Other (js "style");
            Template.Text (js ". Parameters: ");
            Template.Hole Template.Stylize; Template.Text (js " ")]).
  - reflexivity.
  - reflexivity.
  - repeat constructor; simpl; intuition discriminate.
  - intros p Hp; simpl in Hp.
    destruct Hp as [<-|[<-|[<-|[]]]]; vm_compute; reflexivity.
Defined.

(** C9, as the claim has it, fails in three ways.  A placeholder that
    occurs twice is replaced once; a value that spells a later placeholder
    is replaced in its turn; a value with a doubled dollar sign loses
    one. *)
Lemma render_counterexample :
  let build t input :=
    PromptEngines.buildPrompt (Fixture.builder_of t []) 
      (UpdateManager.initial_window []) input (js "image")
      Fixture.no_options in
  let verbatim t_pieces input :=
    trim (Reading.render
            (Template.values (Fixture.builder_of (Template.flatten t_pieces) [])
               (UpdateManager.initial_window []) input (js "image")
               Fixture.no_options)
            t_pieces) in
  let twice :=
    [Template.Hole Template.Subject; Template.Text (js " and ");
     Template.Hole Template.Subject] in
  let once := [Template.Hole Template.Subject] in
  (Template.flatten twice = js "{subject} and {subject}" /\
   full (build (js "{subject} and {subject}") (js "shoe"))
   = js "shoe and {subject}" /\
   verbatim twice (js "shoe") = js "shoe and shoe") /\
  (Template.flatten once = js "{subject}" /\
   full (build (js "{subject}") (js "{engine}")) = js "image" /\
   verbatim once (js "{engine}") = js "{engine}") /\
  (full (build (js "{subject}") (js "a$$b")) = js "a$b" /\
   verbatim once (js "a$$b") = js "a$$b") /\
  full (build (js "{subject} and {subject}") (js "shoe"))
  <> verbatim twice (js "shoe") /\
  full (build (js "{subject}") (js "{engine}"))
  <> verbatim once (js "{engine}") /\
  full (build (js "{subject}") (js "a$$b")) <> verbatim once (js "a$$b").
Proof.
  repeat split; vm_compute; solve [reflexivity | discriminate].
Qed.

(* ====================================================================== *)
(** * Further properties of the code *)
(* ====================================================================== *)

(** ** Trimming *)

Section TrimFacts.

Local Abbreviation blank := (forallb is_white_space).

Lemma trim_start_blank_prefix (l s : jsstring) :
  blank l = true -> trim_start (l ++ s) = trim_start s.
Proof.
  induction l as [|c l IH]; intro H; [reflexivity|].
  cbn [forallb] in H; apply andb_true_iff in H; destruct H as [Hc Hl].
  cbn [app trim_start]; rewrite Hc; apply IH, Hl.
Qed.

Lemma trim_start_head (s : jsstring) :
  match trim_start s with
  | [] => True
  | c :: _ => is_white_space c = false
  end.
Proof.
  induction s as [|c s IH]; [exact I|].
  cbn [trim_start]; destruct (is_white_space c) eqn:E; [exact IH | exact E].
Qed.

Lemma trim_start_decompose (s : jsstring) :
  exists l, s = l ++ trim_start s /\ blank l = true.
Proof.
  induction s as [|c s [l [Hs Hl]]]; [exists []; split; reflexivity|].
  cbn [trim_start]; destruct (is_white_space c) eqn:E.
  - exists (c :: l); split; [cbn [app]; f_equal; exact Hs|].
    cbn [forallb]; rewrite E, Hl; reflexivity.
  - exists []; split; reflexivity.
Qed.

Lemma trim_start_snoc (x : jsstring) (c : code_unit) :
  trim_start (x ++ [c])
  = match trim_start x with
    | [] => if is_white_space c then [] else [c]
    | t => t ++ [c]
    end.
Proof.
  induction x as [|a x IH]; [reflexivity|].
  cbn [app trim_start]; destruct (is_white_space a); [exact IH | reflexivity].
Qed.

(** Trimming at the end, read from the front of the string. *)
Lemma trim_end_cons (c : code_unit) (u : jsstring) :
  trim_end (c :: u)
  = match trim_end u with
    | [] => if is_white_space c then [] else [c]
    | t => c :: t
    end.
Proof.
  unfold trim_end; cbn [rev]; rewrite trim_start_snoc.
  destruct (trim_start (rev u)) as [|a t]; [destruct (is_white_space c);
                                            reflexivity|].
  rewrite rev_app_distr; cbn [rev app].
  destruct (rev t ++ [a]) eqn:E; [|reflexivity].
  apply app_eq_nil in E; destruct E as [_ E]; discriminate E.
Qed.

Lemma trim_end_blank (s : jsstring) : blank s = true -> trim_end s = [].
Proof.
  induction s as [|c s IH]; intro H; [reflexivity|].
  cbn [forallb] in H; apply andb_true_iff in H; destruct H as [Hc Hs].
  rewrite trim_end_cons, (IH Hs), Hc; reflexivity.
Qed.

Lemma trim_end_decompose (s : jsstring) :
  exists r, s = trim_end s ++ r /\ blank r = true.
Proof.
  induction s as [|c s [r [Hs Hr]]]; [exists []; split; reflexivity|].
  rewrite trim_end_cons.
  destruct (trim_end s) as [|a t] eqn:E.
  - destruct (is_white_space c) eqn:Hc.
    + exists (c :: r); split; [cbn [app] in *; f_equal; exact Hs|].
      cbn [forallb]; rewrite Hc, Hr; reflexivity.
    + exists r; split; [cbn [app] in *; f_equal; exact Hs | exact Hr].
  - exists r; split; [cbn [app] in *; f_equal; exact Hs | exact Hr].
Qed.

Lemma trim_end_last (s : jsstring) :
  trim_end s = [] \/
  exists u c, trim_end s = u ++ [c] /\ is_white_space c = false.
Proof.
  induction s as [|c s IH]; [left; reflexivity|].
  rewrite trim_end_cons.
  destruct (trim_end s) as [|a t] eqn:E.
  - destruct (is_white_space c) eqn:Hc; [left; reflexivity|].
    right; exists [], c; split; [reflexivity | exact Hc].
  - right; destruct IH as [IH|[u [d [Hu Hd]]]]; [discriminate IH|].
    exists (c :: u), d; split; [rewrite Hu; reflexivity | exact Hd].
Qed.

Lemma trim_end_snoc_fixed (u : jsstring) (c : code_unit) :
  is_white_space c = false -> trim_end (u ++ [c]) = u ++ [c].
Proof.
  intro H; unfold trim_end.
  rewrite rev_app_distr; cbn [rev app trim_start]; rewrite H.
  cbn [rev]; rewrite rev_involutive; reflexivity.
Qed.

Lemma trim_end_snoc_blank (t : jsstring) (w : code_unit) :
  is_white_space w = true -> trim_end (t ++ [w]) = trim_end t.
Proof.
  intro H; unfold trim_end.
  rewrite rev_app_distr; cbn [rev app trim_start]; rewrite H; reflexivity.
Qed.

Lemma trim_blank (s : jsstring) : blank s = true -> trim s = [].
Proof.
  intro H; unfold trim.
  destruct (trim_start_decompose s) as [l [Hs Hl]].
  pose proof (trim_start_head s) as Hh.
  destruct (trim_start s) as [|c t] eqn:E; [reflexivity|].
  rewrite Hs, forallb_app in H; apply andb_true_iff in H.
  destruct H as [_ H]; cbn [forallb] in H; rewrite Hh in H; discriminate H.
Qed.

Lemma trim_decompose (s : jsstring) :
  exists l r, s = l ++ trim s ++ r /\ blank l = true /\ blank r = true.
Proof.
  destruct (trim_start_decompose s) as [l [Hs Hl]].
  destruct (trim_end_decompose (trim_start s)) as [r [Ht Hr]].
  exists l, r; split; [|split; assumption].
  unfold trim; rewrite <- Ht; exact Hs.
Qed.

(** A trimmed string is empty or begins and ends with a code unit that is
    not white space. *)
Lemma trim_ends (s : jsstring) :
  trim s = [] \/
  exists c u d, is_white_space c = false /\ is_white_space d = false /\
                (trim s = c :: u /\ exists v, trim s = v ++ [d]).
Proof.
  unfold trim.
  pose proof (trim_start_head s) as Hh.
  destruct (trim_start s) as [|c t] eqn:E; [left; reflexivity|].
  right.
  destruct (trim_end_last (c :: t)) as [H|[v [d [Hv Hd]]]].
  - rewrite trim_end_cons in H.
    destruct (trim_end t); [rewrite Hh in H|]; discriminate H.
  - assert (Hc : exists u, trim_end (c :: t) = c :: u).
    { rewrite trim_end_cons; destruct (trim_end t);
        [rewrite Hh|]; eexists; reflexivity. }
    destruct Hc as [u Hu].
    exists c, u, d; split; [exact Hh|]; split; [exact Hd|].
    split; [exact Hu | exists v; exact Hv].
Qed.

Lemma trim_idempotent (s : jsstring) : trim (trim s) = trim s.
Proof.
  destruct (trim_ends s) as [H|[c [u [d [Hc [Hd [Hu [v Hv]]]]]]]].
  - rewrite H; reflexivity.
  - unfold trim at 1; rewrite Hu; cbn [trim_start]; rewrite Hc.
    rewrite <- Hu, Hv; apply trim_end_snoc_fixed, Hd.
Qed.

Lemma trim_cons_blank (w : code_unit) (s : jsstring) :
  is_white_space w = true -> trim (w :: s) = trim s.
Proof. intro H; unfold trim; cbn [trim_start]; rewrite H; reflexivity. Qed.

Lemma trim_snoc_blank (s : jsstring) (w : code_unit) :
  is_white_space w = true -> trim (s ++ [w]) = trim s.
Proof.
  intro H; unfold trim; rewrite trim_start_snoc, H.
  destruct (trim_start s) as [|a t]; [reflexivity|].
  apply trim_end_snoc_blank, H.
Qed.

Lemma trim_keeps (P : code_unit -> bool) (s : jsstring) :
  forallb P s = true -> forallb P (trim s) = true.
Proof.
  intro H; destruct (trim_decompose s) as [l [r [Hs _]]].
  rewrite Hs, !forallb_app in H.
  apply andb_true_iff in H; destruct H as [_ H].
  apply andb_true_iff in H; tauto.
Qed.

End TrimFacts.

(** ** Splitting into segments *)

Section SegmentFacts.

Variable sep : code_unit -> bool.

Lemma split_on_cur (s cur : jsstring) :
  split_on sep cur s
  = match split_on sep [] s with
    | f :: rest => (cur ++ f) :: rest
    | [] => [cur]
    end.
Proof.
  revert cur; induction s as [|c s IH]; intro cur.
  - cbn [split_on]; rewrite app_nil_r; reflexivity.
  - cbn [split_on]; destruct (sep c).
    + rewrite app_nil_r; reflexivity.
    + rewrite (IH (cur ++ [c])), (IH ([] ++ [c])).
      destruct (split_on sep [] s) as [|f rest]; [reflexivity|].
      rewrite <- app_assoc; reflexivity.
Qed.

Lemma split_on_app_sep (c : code_unit) (a b cur : jsstring) :
  sep c = true ->
  split_on sep cur (a ++ c :: b) = split_on sep cur a ++ split_on sep [] b.
Proof.
  intro Hc; revert cur; induction a as [|x a IH]; intro cur.
  - cbn [app split_on]; rewrite Hc; reflexivity.
  - cbn [app split_on]; destruct (sep x); [cbn [app]; f_equal|]; apply IH.
Qed.

Lemma split_on_snoc (w : code_unit) (s cur : jsstring) :
  sep w = false ->
  exists init lst,
    split_on sep cur s = init ++ [lst] /\
    split_on sep cur (s ++ [w]) = init ++ [lst ++ [w]].
Proof.
  intro Hw; revert cur; induction s as [|c s IH]; intro cur.
  - exists [], cur; cbn [app split_on]; rewrite Hw; split; reflexivity.
  - cbn [app split_on]; destruct (sep c).
    + destruct (IH []) as [init [lst [H1 H2]]].
      exists (cur :: init), lst; rewrite H1, H2; split; reflexivity.
    + apply IH.
Qed.

Lemma split_on_keeps (P : code_unit -> bool) (s cur : jsstring) :
  forallb P cur = true -> forallb P s = true ->
  forallb (forallb P) (split_on sep cur s) = true.
Proof.
  revert cur; induction s as [|c s IH]; intros cur Hcur Hs.
  - cbn [split_on forallb]; rewrite Hcur; reflexivity.
  - cbn [forallb] in Hs; apply andb_true_iff in Hs; destruct Hs as [Hc Hs].
    cbn [split_on]; destruct (sep c).
    + cbn [forallb]; rewrite Hcur; apply IH; [reflexivity | exact Hs].
    + apply IH; [|exact Hs].
      rewrite forallb_app, Hcur; cbn [forallb]; rewrite Hc; reflexivity.
Qed.

Lemma split_on_separated (s cur : jsstring) :
  forallb (fun c => negb (sep c)) cur = true ->
  forallb (forallb (fun c => negb (sep c))) (split_on sep cur s) = true.
Proof.
  revert cur; induction s as [|c s IH]; intros cur Hcur.
  - cbn [split_on forallb]; rewrite Hcur; reflexivity.
  - cbn [split_on]; destruct (sep c) eqn:E.
    + cbn [forallb]; rewrite Hcur; apply IH; reflexivity.
    + apply IH; rewrite forallb_app, Hcur; cbn [forallb].
      rewrite E; reflexivity.
Qed.

End SegmentFacts.

Section SegmentsOfText.

Import SlotParser.

(** The segments without the trim of the whole text. *)
Local Abbreviation pieces_of text :=
  (filter truthy (List.map trim (split_on is_separator [] text))).

Lemma pieces_blank_cons (w : code_unit) (s : jsstring) :
  is_white_space w = true -> pieces_of (w :: s) = pieces_of s.
Proof.
  intro Hw; cbn [split_on]; destruct (is_separator w).
  - reflexivity.
  - rewrite split_on_cur.
    destruct (split_on is_separator [] s) as [|f rest] eqn:E.
    + destruct s; cbn [split_on] in E;
        [discriminate E | destruct (is_separator c); [discriminate E|]].
      rewrite split_on_cur in E.
      destruct (split_on is_separator [] s); discriminate E.
    + cbn [List.map app]; rewrite trim_cons_blank by exact Hw; reflexivity.
Qed.

Lemma pieces_separator_cons (c : code_unit) (s : jsstring) :
  is_separator c = true -> pieces_of (c :: s) = pieces_of s.
Proof. intro Hc; cbn [split_on]; rewrite Hc; reflexivity. Qed.

Lemma pieces_blank_prefix (l s : jsstring) :
  forallb is_white_space l = true -> pieces_of (l ++ s) = pieces_of s.
Proof.
  induction l as [|w l IH]; intro H; [reflexivity|].
  cbn [forallb] in H; apply andb_true_iff in H; destruct H as [Hw Hl].
  cbn [app]; rewrite pieces_blank_cons by exact Hw; apply IH, Hl.
Qed.

Lemma pieces_app_separator (c : code_unit) (a b : jsstring) :
  is_separator c = true ->
  pieces_of (a ++ c :: b) = pieces_of a ++ pieces_of b.
Proof.
  intro Hc; rewrite split_on_app_sep by exact Hc; rewrite map_app, filter_app.
  reflexivity.
Qed.

Lemma pieces_blank_snoc (s : jsstring) (w : code_unit) :
  is_white_space w = true -> pieces_of (s ++ [w]) = pieces_of s.
Proof.
  intro Hw; destruct (is_separator w) eqn:E.
  - rewrite pieces_app_separator by exact E; cbn [split_on List.map filter].
    change (truthy (trim [])) with false; cbn iota; apply app_nil_r.
  - destruct (@split_on_snoc is_separator w s [] E) as [init [lst [H1 H2]]].
    rewrite H1, H2, !map_app, !filter_app; cbn [List.map].
    rewrite trim_snoc_blank by exact Hw; reflexivity.
Qed.

Lemma pieces_blank_suffix (r s : jsstring) :
  forallb is_white_space r = true -> pieces_of (s ++ r) = pieces_of s.
Proof.
  revert s; induction r as [|w r IH]; intros s H; [rewrite app_nil_r; auto|].
  cbn [forallb] in H; apply andb_true_iff in H; destruct H as [Hw Hr].
  change (s ++ w :: r) with (s ++ [w] ++ r); rewrite app_assoc.
  rewrite (IH _ Hr); apply pieces_blank_snoc, Hw.
Qed.

(** Trimming the whole text first changes nothing: every segment is
    trimmed anyway and empty segments are dropped. *)
Lemma segments_without_outer_trim (text : jsstring) :
  segments text = pieces_of text.
Proof.
  unfold segments.
  destruct (trim_decompose text) as [l [r [Hs [Hl Hr]]]].
  rewrite Hs at 2.
  rewrite pieces_blank_prefix by exact Hl.
  rewrite pieces_blank_suffix by exact Hr.
  reflexivity.
Qed.

End SegmentsOfText.

(** ** Slot extraction: further properties *)

(** X1.  Every segment the parser works with is non-empty, is already
    trimmed, and contains no period, comma or newline. *)
Theorem segments_are_clean (text p : jsstring) :
  In p (SlotParser.segments text) ->
  p <> [] /\ trim p = p /\
  forallb (fun c => negb (SlotParser.is_separator c)) p = true.
Proof.
  unfold SlotParser.segments; intro H.
  apply filter_In in H; destruct H as [H Hp].
  apply in_map_iff in H; destruct H as [q [<- Hq]].
  split; [apply truthy_true_iff, Hp|].
  split; [apply trim_idempotent|].
  apply trim_keeps.
  pose proof (split_on_separated SlotParser.is_separator (trim text) [] eq_refl)
    as Hall.
  rewrite forallb_forall in Hall; apply Hall, Hq.
Qed.

Lemma segments_are_clean_witness :
  In (js "wooden table")
     (SlotParser.segments (js "  a red shoe ,  wooden table . ")) /\
  trim (js "wooden table") = js "wooden table".
Proof.
  assert (H : In (js "wooden table")
                 (SlotParser.segments (js "  a red shoe ,  wooden table . ")))
    by (vm_compute; auto).
  split; [exact H|].
  exact (proj1 (proj2 (segments_are_clean _ _ H))).
Defined.

(** X2.  A text made only of white space, periods, commas and newlines
    has no segment, and every slot takes its default. *)
Theorem blank_text_gives_defaults (text : jsstring) :
  forallb (fun c => is_white_space c || SlotParser.is_separator c) text
  = true ->
  SlotParser.segments text = [] /\
  SlotParser.parse text
  = {| subject := SlotParser.default_subject;
       environment := SlotParser.default_environment;
       lighting := SlotParser.default_lighting;
       materials := SlotParser.default_materials;
       mood := SlotParser.default_mood;
       composition := SlotParser.default_composition;
       details := SlotParser.default_details;
       duration := 4 |}.
Proof.
  intro H.
  assert (E : SlotParser.segments text = []).
  { rewrite segments_without_outer_trim.
    induction text as [|c text IH]; [reflexivity|].
    cbn [forallb] in H; apply andb_true_iff in H; destruct H as [Hc H].
    destruct (SlotParser.is_separator c) eqn:Es.
    - rewrite pieces_separator_cons by exact Es; apply IH, H.
    - rewrite orb_false_r in Hc.
      rewrite pieces_blank_cons by exact Hc; apply IH, H. }
  split; [exact E|].
  unfold SlotParser.parse; rewrite E; reflexivity.
Qed.

Lemma blank_text_gives_defaults_witness :
  SlotParser.segments (js " . ,, .. ") = [] /\
  subject (SlotParser.parse (js " . ,, .. ")) = js "product beauty shot".
Proof.
  destruct (@blank_text_gives_defaults (js " . ,, .. ")) as [H1 H2].
  - reflexivity.
  - split; [exact H1 | rewrite H2; reflexivity].
Defined.

(** X3.  Joining two texts with a period, a comma or a newline joins
    their segment lists: the segments of the whole are those of the first
    text followed by those of the second. *)
Theorem segments_of_joined_texts (a b : jsstring) (c : code_unit) :
  SlotParser.is_separator c = true ->
  SlotParser.segments (a ++ c :: b)
  = SlotParser.segments a ++ SlotParser.segments b.
Proof.
  intro Hc; rewrite !segments_without_outer_trim.
  apply pieces_app_separator, Hc.
Qed.

Lemma segments_of_joined_texts_witness :
  SlotParser.segments (js "Be concise. No text" ++ 0xA%N :: js " red shoe ")
  = [js "Be concise"; js "No text"; js "red shoe"].
Proof.
  refine (eq_trans (@segments_of_joined_texts (js "Be concise. No text")
                      (js " red shoe ") 0xA%N _) _);
    reflexivity.
Defined.

(** X4.  The keyword slots scan the same segment list as subject and
    environment: when the first segment carries a keyword of a slot, that
    slot is the subject itself. *)
Theorem first_segment_reused (text p : jsstring) (rest : list jsstring) :
  SlotParser.segments text = p :: rest ->
  let s := SlotParser.parse text in
  subject s = p /\
  (SlotParser.test SlotParser.lighting_re p = true -> lighting s = p) /\
  (SlotParser.test SlotParser.materials_re p = true -> materials s = p) /\
  (SlotParser.test SlotParser.mood_re p = true -> mood s = p) /\
  (SlotParser.test SlotParser.composition_re p = true -> composition s = p).
Proof.
  intros E s.
  assert (Hp : truthy p = true).
  { apply segments_truthy with (text := text); rewrite E; left; reflexivity. }
  subst s; unfold SlotParser.parse; rewrite E.
  cbn [subject lighting materials mood composition nth_error find].
  unfold SlotParser.or_default at 1; rewrite or_else_truthy by exact Hp.
  split; [reflexivity|].
  repeat split; intros ->; cbn [SlotParser.or_default];
    apply or_else_truthy, Hp.
Qed.

Lemma first_segment_reused_witness :
  let s := SlotParser.parse (js "햇살 아래 유리병, 나무 탁자") in
  subject s = js "햇살 아래 유리병" /\
  lighting s = subject s /\ materials s = subject s.
Proof.
  destruct (@first_segment_reused (js "햇살 아래 유리병, 나무 탁자")
              (js "햇살 아래 유리병") [js "나무 탁자"]) as [H1 [H2 [H3 _]]].
  - reflexivity.
  - cbv zeta; rewrite H1, H2, H3; repeat split; reflexivity.
Defined.

(** ** Translation: further properties *)

(** X5.  A text in which no lexicon key with a non-empty value occurs is
    returned unchanged; entries whose value is empty never change a
    text. *)
Theorem translate_leaves_foreign_text (text : jsstring) (lex : Lexicon) :
  (forall k v, get k lex = Some v -> truthy v = true ->
               occurs k text = false) ->
  MiniTranslator.translate text lex = text.
Proof. apply translate_absent. Qed.

Lemma translate_leaves_foreign_text_witness :
  MiniTranslator.translate (js "wooden table")
                           [(js "구두", js "shoe"); (js "table", [])]
  = js "wooden table".
Proof.
  apply (@translate_leaves_foreign_text (js "wooden table")
           [(js "구두", js "shoe"); (js "table", [])]).
  intros k v Hk Hv; cbn [get] in Hk.
  destruct (JsString.eqb k (js "구두")) eqn:E1.
  - apply eqb_eq in E1; subst k; reflexivity.
  - destruct (JsString.eqb k (js "table")) eqn:E2; [|discriminate Hk].
    injection Hk as <-; discriminate Hv.
Defined.

Section KeyOrder.

Import MiniTranslator.

Local Abbreviation longer_first :=
  (fun a b : jsstring => (JsString.length b <= JsString.length a)%nat).

Lemma insert_by_length_perm (x : jsstring) (l : list jsstring) :
  Permutation (x :: l) (insert_by_length x l).
Proof.
  induction l as [|y l IH]; [apply Permutation_refl|].
  cbn [insert_by_length].
  destruct (JsString.length x <? JsString.length y)%nat.
  - eapply perm_trans; [apply perm_swap | apply perm_skip, IH].
  - apply Permutation_refl.
Qed.

Lemma sort_by_length_perm (ks : list jsstring) :
  Permutation ks (sort_by_length_desc ks).
Proof.
  induction ks as [|k ks IH]; [apply perm_nil|].
  unfold sort_by_length_desc in *; cbn [fold_right].
  eapply perm_trans; [apply perm_skip, IH | apply insert_by_length_perm].
Qed.

Lemma insert_by_length_sorted (x : jsstring) (l : list jsstring) :
  StronglySorted longer_first l ->
  StronglySorted longer_first (insert_by_length x l).
Proof.
  induction 1 as [|y l Hs IH Hy]; [repeat constructor|].
  cbn [insert_by_length].
  destruct (JsString.length x <? JsString.length y)%nat eqn:E.
  - apply Nat.ltb_lt in E; constructor; [exact IH|].
    apply (Permutation_Forall (insert_by_length_perm x l)).
    constructor; [lia | exact Hy].
  - apply Nat.ltb_ge in E; constructor; [constructor; assumption|].
    constructor; [exact E|].
    eapply Forall_impl; [|exact Hy]; cbv beta; intros z Hz; lia.
Qed.

Lemma sort_by_length_sorted (ks : list jsstring) :
  StronglySorted longer_first (sort_by_length_desc ks).
Proof.
  induction ks as [|k ks IH]; [constructor|].
  unfold sort_by_length_desc in *; cbn [fold_right].
  apply insert_by_length_sorted, IH.
Qed.

Lemma insert_by_length_stable (n : nat) (x : jsstring) (l : list jsstring) :
  filter (fun k => Nat.eqb (JsString.length k) n) (insert_by_length x l)
  = filter (fun k => Nat.eqb (JsString.length k) n) (x :: l).
Proof.
  induction l as [|y l IH]; [reflexivity|].
  cbn [insert_by_length].
  destruct (JsString.length x <? JsString.length y)%nat eqn:E;
    [|reflexivity].
  apply Nat.ltb_lt in E.
  cbn [filter] in *; rewrite IH.
  destruct (Nat.eqb (JsString.length y) n) eqn:Ey;
    destruct (Nat.eqb (JsString.length x) n) eqn:Ex; try reflexivity.
  apply Nat.eqb_eq in Ey, Ex; lia.
Qed.

Lemma sort_by_length_stable (n : nat) (ks : list jsstring) :
  filter (fun k => Nat.eqb (JsString.length k) n) (sort_by_length_desc ks)
  = filter (fun k => Nat.eqb (JsString.length k) n) ks.
Proof.
  induction ks as [|k ks IH]; [reflexivity|].
  unfold sort_by_length_desc in *; cbn [fold_right].
  rewrite insert_by_length_stable; cbn [filter]; rewrite IH; reflexivity.
Qed.

Lemma insert_index_perm (x : N * jsstring) (l : list (N * jsstring)) :
  Permutation (x :: l) (insert_index x l).
Proof.
  induction l as [|y l IH]; [apply Permutation_refl|].
  cbn [insert_index]; destruct (fst x <=? fst y)%N.
  - apply Permutation_refl.
  - eapply perm_trans; [apply perm_swap | apply perm_skip, IH].
Qed.

Lemma sort_index_perm (l : list (N * jsstring)) :
  Permutation l (sort_index l).
Proof.
  induction l as [|x l IH]; [apply perm_nil|].
  unfold sort_index in *; cbn [fold_right].
  eapply perm_trans; [apply perm_skip, IH | apply insert_index_perm].
Qed.

Lemma keys_perm (V : Type) (o : obj V) :
  Permutation (List.map fst o) (keys o).
Proof.
  unfold keys.
  eapply perm_trans;
    [|apply Permutation_app_tail, Permutation_map, sort_index_perm].
  induction (List.map fst o) as [|k ks IH]; [apply perm_nil|].
  cbn [index_keys filter]; unfold is_string_key at 1.
  destruct (array_index k).
  - cbn [List.map snd app]; apply perm_skip, IH.
  - apply Permutation_cons_app, IH.
Qed.

End KeyOrder.

(** X6.  The keys the translator walks through are the own keys of the
    lexicon, each as often as it is listed, longest first; keys of equal
    length keep the order [Object.keys] gives them. *)
Theorem translate_key_order (lex : Lexicon) :
  let allKeys := MiniTranslator.sort_by_length_desc (keys lex) in
  Permutation (List.map fst lex) allKeys /\
  StronglySorted
    (fun a b => (JsString.length b <= JsString.length a)%nat) allKeys /\
  (forall n,
      filter (fun k => Nat.eqb (JsString.length k) n) allKeys
      = filter (fun k => Nat.eqb (JsString.length k) n) (keys lex)) /\
  (forall text,
      MiniTranslator.translate text lex
      = fold_left (MiniTranslator.step lex) allKeys text).
Proof.
  intro allKeys; split; [|split; [|split]].
  - eapply perm_trans; [apply keys_perm | apply sort_by_length_perm].
  - apply sort_by_length_sorted.
  - intro n; apply sort_by_length_stable.
  - intro text; reflexivity.
Qed.

(** X7.  For a lexicon of two entries whose keys differ in length, the
    order in which the entries are written does not matter: the longer
    key is replaced first, then the shorter one, each only when its value
    is not empty. *)
Theorem longer_key_first (k1 v1 k2 v2 text : jsstring) :
  (JsString.length k2 < JsString.length k1)%nat ->
  let once t k v := if truthy v then replace_all t k v else t in
  MiniTranslator.translate text [(k1, v1); (k2, v2)]
  = once (once text k1 v1) k2 v2 /\
  MiniTranslator.translate text [(k2, v2); (k1, v1)]
  = once (once text k1 v1) k2 v2.
Proof.
  intros Hlen once.
  assert (Hne : k1 <> k2) by (intro E; subst; lia).
  assert (E12 : JsString.eqb k1 k2 = false) by (apply eqb_neq; exact Hne).
  assert (E21 : JsString.eqb k2 k1 = false)
    by (apply eqb_neq; intro E; apply Hne; symmetry; exact E).
  assert (Hsorted : forall lex : Lexicon,
             Permutation [k1; k2] (List.map fst lex) ->
             MiniTranslator.sort_by_length_desc (keys lex) = [k1; k2]).
  { intros lex Hp.
    assert (Hp' : Permutation [k1; k2]
                    (MiniTranslator.sort_by_length_desc (keys lex))).
    { eapply perm_trans; [exact Hp|].
      eapply perm_trans; [apply keys_perm | apply sort_by_length_perm]. }
    pose proof (sort_by_length_sorted (keys lex)) as Hs.
    apply Permutation_length_2_inv in Hp'; destruct Hp' as [->| Hp'];
      [reflexivity|].
    rewrite Hp' in Hs; inversion Hs as [|a l _ Hall]; subst.
    inversion Hall as [|b l' Hle _]; subst; cbv beta in Hle; lia. }
  unfold MiniTranslator.translate; split.
  - rewrite Hsorted by apply Permutation_refl.
    cbn [fold_left]; unfold MiniTranslator.step; cbn [get].
    rewrite !eqb_refl, E21; reflexivity.
  - rewrite Hsorted by apply perm_swap.
    cbn [fold_left]; unfold MiniTranslator.step; cbn [get].
    rewrite !eqb_refl, E12; reflexivity.
Qed.

Lemma longer_key_first_witness :
  MiniTranslator.translate (js "빨간 구두")
                           [(js "구두", js "shoe"); (js "빨간 구두", js "red shoe")]
  = js "red shoe".
Proof.
  refine (eq_trans
            (proj2 (@longer_key_first (js "빨간 구두") (js "red shoe")
                      (js "구두") (js "shoe") (js "빨간 구두") _)) _).
  - vm_compute; lia.
  - reflexivity.
Defined.

(** ** The build result: further properties *)

Lemma is_prefix_split (p s : jsstring) :
  is_prefix p s = true -> s = p ++ skipn (List.length p) s.
Proof.
  revert s; induction p as [|a p IH]; intros s H; [reflexivity|].
  destruct s as [|b s]; [discriminate H|].
  cbn [is_prefix] in H; apply andb_true_iff in H; destruct H as [Hab H].
  apply N.eqb_eq in Hab; subst b.
  cbn [List.length skipn app]; f_equal; apply IH, H.
Qed.

Lemma dot_star_eol_captures (s : jsstring) :
  exists captured rest,
    PromptEngines.dot_star_eol s = Some captured /\
    s = captured ++ rest /\
    forallb (fun c => negb (is_line_terminator c)) captured = true.
Proof.
  induction s as [|c s [cap [rest [H1 [H2 H3]]]]].
  - exists [], []; repeat split.
  - cbn [PromptEngines.dot_star_eol].
    destruct (is_line_terminator c) eqn:E.
    + exists [], (c :: s); repeat split.
    + rewrite H1; exists (c :: cap), rest; split; [reflexivity|].
      split; [cbn [app]; f_equal; exact H2|].
      cbn [forallb]; rewrite E, H3; reflexivity.
Qed.

Lemma match_parameters_captures (s captured : jsstring) :
  PromptEngines.match_parameters s = Some captured ->
  (exists pre post, s = pre ++ PromptEngines.marker ++ captured ++ post) /\
  forallb (fun c => negb (is_line_terminator c)) captured = true.
Proof.
  induction s as [|c s IH]; intro H.
  - discriminate H.
  - cbn [PromptEngines.match_parameters] in H.
    destruct (is_prefix PromptEngines.marker (c :: s)) eqn:E.
    + destruct (dot_star_eol_captures
                  (skipn (List.length PromptEngines.marker) (c :: s)))
        as [cap [rest [H1 [H2 H3]]]].
      rewrite H1 in H; injection H as <-.
      split; [|exact H3].
      exists [], rest; cbn [app].
      rewrite (is_prefix_split _ _ E) at 1; rewrite H2 at 1; reflexivity.
    + destruct (IH H) as [[pre [post Hs]] Hc].
      split; [|exact Hc].
      exists (c :: pre), post; cbn [app]; f_equal; exact Hs.
Qed.

(** X8.  Both fields of a build result are trimmed, and the parameter
    field holds no line terminator.  When it is not empty it is part of
    the full text: it follows the marker [Parameters:] there, separated
    from it by white space at most. *)
Theorem build_result_shape
        (b : Builder) (w : Window) (input engine : jsstring)
        (uiOptions : BuildOptions) :
  let r := PromptEngines.buildPrompt b w input engine uiOptions in
  trim (full r) = full r /\
  trim (params_line r) = params_line r /\
  forallb (fun c => negb (is_line_terminator c)) (params_line r) = true /\
  (params_line r = [] \/
   exists pre gap post,
     full r = pre ++ PromptEngines.marker ++ gap ++ params_line r ++ post /\
     forallb is_white_space gap = true).
Proof.
  intro r; subst r; unfold PromptEngines.buildPrompt; cbn [full params_line].
  set (filled := PromptEngines.fill _ _ _ _ _ _ _).
  split; [unfold filled, PromptEngines.fill; apply trim_idempotent|].
  unfold PromptEngines.paramsLine.
  split; [apply trim_idempotent|].
  destruct (PromptEngines.match_parameters filled) as [cap|] eqn:E.
  - apply match_parameters_captures in E.
    destruct E as [[pre [post Hs]] Hc].
    split; [apply trim_keeps, Hc|].
    right; destruct (trim_decompose cap) as [l [r [Hcap [Hl _]]]].
    exists pre, l, (r ++ post); split; [|exact Hl].
    rewrite Hs; rewrite Hcap at 1.
    rewrite <- !app_assoc; reflexivity.
  - split; [reflexivity | left; reflexivity].
Qed.

(** X9.  A model without template, or with an empty one, builds the empty
    prompt with empty parameters, whatever the input and the options. *)
Theorem missing_template_builds_nothing
        (m : ModelRecord) (w : Window) (input engine : jsstring)
        (uiOptions : BuildOptions) :
  m_template m = None \/ m_template m = Some [] ->
  PromptEngines.buildPrompt (PromptEngines.createBuilder m) w input engine
                            uiOptions
  = {| full := []; params_line := [] |}.
Proof.
  intro H; unfold PromptEngines.buildPrompt, PromptEngines.createBuilder.
  cbn [template modelRecord params].
  destruct H as [-> | ->]; reflexivity.
Qed.

Lemma missing_template_builds_nothing_witness :
  PromptEngines.buildPrompt
    (PromptEngines.createBuilder
       {| m_id := js "bare"; m_name := js "Bare"; m_latest := js "1";
          m_engines := []; m_params := None; m_template := None;
          m_lexicon := None; m_guideline := [] |})
    (UpdateManager.initial_window []) (js "a red shoe") (js "image")
    Fixture.no_options
  = {| full := []; params_line := [] |}.
Proof.
  apply (@missing_template_builds_nothing
           {| m_id := js "bare"; m_name := js "Bare"; m_latest := js "1";
              m_engines := []; m_params := None; m_template := None;
              m_lexicon := None; m_guideline := [] |}).
  left; reflexivity.
Defined.

(** ** The builder registry *)

Lemma find_with_last (test : ModelRecord -> bool)
      (earlier : list ModelRecord) (m : ModelRecord) :
  find test (earlier ++ [m])
  = match find test earlier with
    | Some found => Some found
    | None => if test m then Some m else None
    end.
Proof.
  induction earlier as [|m0 earlier IH]; [reflexivity|].
  cbn [app find]; destruct (test m0); [reflexivity | exact IH].
Qed.

Lemma registry_lookup (id : jsstring) :
  forall (ms : list ModelRecord) (acc : obj Builder),
    get id (fold_left
              (fun bs model =>
                 set (m_id model) (PromptEngines.createBuilder model) bs)
              ms acc)
    = match find (fun m => JsString.eqb id (m_id m)) (rev ms) with
      | Some m => Some (PromptEngines.createBuilder m)
      | None => get id acc
      end.
Proof.
  induction ms as [|m ms IH]; intro acc; [reflexivity|].
  cbn [fold_left rev]; rewrite IH, find_with_last.
  destruct (find _ (rev ms)) as [m'|]; [reflexivity|].
  destruct (JsString.eqb id (m_id m)) eqn:E.
  - apply eqb_eq in E; subst id; apply get_after_set.
  - apply eqb_neq in E; apply get_after_set_other, E.
Qed.

Lemma find_last_is_first (id : jsstring) (ms : list ModelRecord) :
  NoDup (List.map m_id ms) ->
  find (fun m => JsString.eqb id (m_id m)) (rev ms)
  = find (fun m => JsString.eqb id (m_id m)) ms.
Proof.
  induction ms as [|m ms IH]; intro Hnd; [reflexivity|].
  cbn [List.map] in Hnd; inversion Hnd as [|x l Hnotin Hnd']; subst.
  cbn [rev find]; rewrite find_with_last, (IH Hnd').
  destruct (JsString.eqb id (m_id m)) eqn:E.
  - apply eqb_eq in E; subst id.
    destruct (find _ ms) as [m'|] eqn:F; [|reflexivity].
    apply find_some in F; destruct F as [Hin Heq].
    apply eqb_eq in Heq; exfalso; apply Hnotin.
    rewrite Heq; apply in_map, Hin.
  - destruct (find _ ms); reflexivity.
Qed.

(** X10.  After an installation the registry holds builders of the
    installed document only, whatever it held before: an identifier is
    mapped to the builder of the last model that carries it, and an
    identifier no model carries has no builder.  (Identifiers are taken
    not to collide with the property names every object inherits.) *)
Theorem registry_after_install
        (guidelines : GuidelineDocument) (w : Window) (id : jsstring) :
  forallb (fun m => negb (App.inherited (m_id m)))
          (PromptEngines.models_or_empty guidelines) = true ->
  App.inherited id = false ->
  let w' := PromptEngines.installFromGuidelines guidelines w in
  App.lookup_builder id w'
  = option_map PromptEngines.createBuilder
      (find (fun m => JsString.eqb id (m_id m))
            (rev (PromptEngines.models_or_empty guidelines))) /\
  (~ In id (List.map m_id (PromptEngines.models_or_empty guidelines)) ->
   App.lookup_builder id w' = None) /\
  (forall m, In m (PromptEngines.models_or_empty guidelines) ->
             m_id m = id ->
             exists m', m_id m' = id /\
                        In m' (PromptEngines.models_or_empty guidelines) /\
                        App.lookup_builder id w'
                        = Some (PromptEngines.createBuilder m')).
Proof.
  intros _ _ w'.
  assert (E : App.lookup_builder id w'
              = option_map PromptEngines.createBuilder
                  (find (fun m => JsString.eqb id (m_id m))
                        (rev (PromptEngines.models_or_empty guidelines)))).
  { unfold App.lookup_builder, w', PromptEngines.installFromGuidelines.
    cbn [builders]; rewrite registry_lookup.
    destruct (find _ _); reflexivity. }
  split; [exact E|]; split.
  - intro Hnot; rewrite E.
    destruct (find _ _) as [m|] eqn:F; [|reflexivity].
    apply find_some in F; destruct F as [Hin Heq].
    apply eqb_eq in Heq; exfalso; apply Hnot.
    rewrite Heq; apply in_map, in_rev, Hin.
  - intros m Hin Hid; rewrite E.
    destruct (find _ _) as [m'|] eqn:F.
    + apply find_some in F; destruct F as [Hin' Heq].
      apply eqb_eq in Heq; exists m'; split; [congruence|].
      split; [apply in_rev, Hin' | reflexivity].
    + exfalso.
      assert (Hf : JsString.eqb id (m_id m) = false).
      { apply (find_none _ _ F m), in_rev; rewrite rev_involutive.
        exact Hin. }
      apply eqb_neq in Hf; congruence.
Qed.

Lemma registry_after_install_witness :
  App.lookup_builder (js "plain")
    (PromptEngines.installFromGuidelines
       Fixture.document_with_global_lexicon
       (UpdateManager.initial_window []))
  = Some (PromptEngines.createBuilder Fixture.subject_model).
Proof.
  refine (eq_trans
            (proj1 (@registry_after_install
                      Fixture.document_with_global_lexicon
                      (UpdateManager.initial_window []) (js "plain") _ _))
            _); reflexivity.
Defined.

(** ** Guideline resolution: further properties *)

Section LoaderFacts.

Import UpdateManager.

Variable error : Type.
Variable fetchJson : jsstring -> error + GuidelineDocument.
Variable JSON_parse : jsstring -> error + GuidelineDocument.
Variable JSON_stringify : GuidelineDocument -> jsstring.

Local Abbreviation load :=
  (loadGuidelines fetchJson JSON_parse JSON_stringify).

(** The tag a fetched document is stamped with. *)
Local Abbreviation fetched_tag w :=
  (if PromptEngines.provided (getItem SOURCE_URL w)
   then js "remote" else js "local").

Lemma try_fetch_fetched (w : Window) (data : GuidelineDocument) :
  fetchJson (configured_url w) = inr data ->
  try_fetch fetchJson JSON_stringify w
  = inr (set_source (fetched_tag w) data,
         setItem CACHED_JSON
                 (JSON_stringify (set_source (fetched_tag w) data)) w).
Proof.
  unfold try_fetch, configured_url; intro H.
  destruct (PromptEngines.provided (getItem SOURCE_URL w));
    rewrite H; reflexivity.
Qed.

Lemma load_fetched (w : Window) (data : GuidelineDocument) :
  fetchJson (configured_url w) = inr data ->
  load w
  = (inr (set_source (fetched_tag w) data),
     publish (set_source (fetched_tag w) data)
             (setItem CACHED_JSON
                (JSON_stringify (set_source (fetched_tag w) data)) w)).
Proof.
  intro H; unfold loadGuidelines; rewrite (try_fetch_fetched _ H).
  reflexivity.
Qed.

Lemma getItem_publish (k : jsstring) (data : GuidelineDocument)
      (w : Window) :
  getItem k (publish data w) = getItem k w.
Proof. reflexivity. Qed.

Lemma getItem_setItem_other (k k0 v : jsstring) (w : Window) :
  k <> k0 -> getItem k (setItem k0 v w) = getItem k w.
Proof. intro H; unfold getItem, setItem; cbn; apply get_after_set_other, H. Qed.

Lemma getItem_setItem (k v : jsstring) (w : Window) :
  getItem k (setItem k v w) = Some v.
Proof. unfold getItem, setItem; cbn; apply get_after_set. Qed.

(** X11.  The loader never touches a storage key other than the one of
    the cached document: the source URL and the refresh period read the
    same before and after a call, whatever its outcome. *)
Theorem load_keeps_settings (w : Window) (k : jsstring) :
  k <> CACHED_JSON ->
  getItem k (snd (load w)) = getItem k w.
Proof.
  intro Hk; unfold loadGuidelines.
  destruct (try_fetch fetchJson JSON_stringify w) as [err|[data w1]] eqn:E.
  - destruct (cache_fallback JSON_parse err w); reflexivity.
  - cbn [snd]; rewrite getItem_publish.
    unfold try_fetch in E.
    destruct (PromptEngines.provided (getItem SOURCE_URL w));
      destruct (fetchJson _); try discriminate E;
      injection E as _ <-; apply getItem_setItem_other, Hk.
Qed.

(** X12.  The outcomes of a successful call.  When the fetch succeeds the
    result is the fetched document stamped [remote] if a source URL is
    stored and [local] otherwise; when it fails the result is the parsed
    cached text stamped [cache].  So the source of a resolved document is
    always one of the three tags. *)
Theorem load_result_provenance
        (w w' : Window) (doc : GuidelineDocument) :
  load w = (inr doc, w') ->
  match fetchJson (configured_url w) with
  | inr data => doc = set_source (fetched_tag w) data
  | inl _ =>
    exists cached parsed,
      getItem CACHED_JSON w = Some cached /\ truthy cached = true /\
      JSON_parse cached = inr parsed /\
      doc = set_source (js "cache") parsed
  end /\
  (d_source doc = Some (js "remote") \/ d_source doc = Some (js "local") \/
   d_source doc = Some (js "cache")).
Proof.
  intro H.
  destruct (fetchJson (configured_url w)) as [err|data] eqn:F.
  - unfold loadGuidelines in H.
    rewrite (try_fetch_failure _ _ _ F) in H.
    unfold cache_fallback in H.
    destruct (getItem CACHED_JSON w) as [cached|]; [|discriminate H].
    destruct (truthy cached) eqn:T; [|discriminate H].
    destruct (JSON_parse cached) as [perr|parsed] eqn:P; [discriminate H|].
    injection H as <- _; split; [|right; right; reflexivity].
    exists cached, parsed; split; [reflexivity|]; split; [exact T|].
    split; [exact P | reflexivity].
  - rewrite (load_fetched _ F) in H; injection H as <- _.
    split; [reflexivity|].
    destruct (PromptEngines.provided (getItem SOURCE_URL w));
      [left | right; left]; reflexivity.
Qed.

(** X13.  A cached text that does not parse: when the fetch fails and the
    stored text is rejected by the parser, the call throws the parser's
    exception, not the one of the fetch, and the page state stays as it
    was. *)
Theorem malformed_cache_throws_parse_error
        (w : Window) (err perr : error) (cached : jsstring) :
  fetchJson (configured_url w) = inl err ->
  getItem CACHED_JSON w = Some cached ->
  truthy cached = true ->
  JSON_parse cached = inl perr ->
  load w = (inl perr, w).
Proof.
  intros F G T P; unfold loadGuidelines.
  rewrite (try_fetch_failure _ _ _ F).
  unfold cache_fallback; rewrite G, T, P; reflexivity.
Qed.

Lemma published_after_load
      (w w' : Window) (doc : GuidelineDocument) (id : jsstring) :
  load w = (inr doc, w') ->
  GlobalGuidelines w'
  = Some {| version := field_or (d_version doc) (js "0.0.0");
            updatedAt := field_or (d_updatedAt doc) [];
            lexicon := [];
            models := Some (PromptEngines.models_or_empty doc) |} /\
  App.lookup_builder id w'
  = option_map PromptEngines.createBuilder
      (find (fun m => JsString.eqb id (m_id m))
            (rev (PromptEngines.models_or_empty doc))).
Proof.
  intro H; apply load_success_publishes in H; destruct H as [w0 ->].
  split; [reflexivity|].
  unfold App.lookup_builder, publish, PromptEngines.installFromGuidelines.
  cbn [builders]; rewrite registry_lookup.
  destruct (find _ _); reflexivity.
Qed.

(** X14.  What a successful call publishes: the version and date of the
    resolved document, with their defaults when absent or empty, an empty
    lexicon, the model list of the document, and a registry in which an
    identifier has the builder of the last model of the document that
    carries it.  (The identifiers of the models and the identifier looked
    up are taken not to be property names every object inherits.) *)
Theorem load_publishes_document
        (w w' : Window) (doc : GuidelineDocument) (id : jsstring) :
  load w = (inr doc, w') ->
  forallb (fun m => negb (App.inherited (m_id m)))
          (PromptEngines.models_or_empty doc) = true ->
  App.inherited id = false ->
  GlobalGuidelines w'
  = Some {| version := field_or (d_version doc) (js "0.0.0");
            updatedAt := field_or (d_updatedAt doc) [];
            lexicon := [];
            models := Some (PromptEngines.models_or_empty doc) |} /\
  App.lookup_builder id w'
  = option_map PromptEngines.createBuilder
      (find (fun m => JsString.eqb id (m_id m))
            (rev (PromptEngines.models_or_empty doc))).
Proof. intros H _ _; exact (@published_after_load w w' doc id H). Qed.

Lemma find_same_test (A : Type) (f g : A -> bool) (l : list A) :
  (forall x, f x = g x) -> find f l = find g l.
Proof.
  intro H; induction l as [|x l IH]; [reflexivity|].
  cbn [find]; rewrite H, IH; reflexivity.
Qed.

(** X15.  With unique model identifiers, the record the page shows for an
    identifier (the first one in the published list) and the builder the
    page uses for it (the last one installed) belong to the same model.
    (The identifiers of the models and the identifier looked up are taken
    not to be property names every object inherits.) *)
Theorem shown_model_is_built_model
        (w w' : Window) (doc : GuidelineDocument) (id : jsstring) :
  load w = (inr doc, w') ->
  NoDup (List.map m_id (PromptEngines.models_or_empty doc)) ->
  forallb (fun m => negb (App.inherited (m_id m)))
          (PromptEngines.models_or_empty doc) = true ->
  App.inherited id = false ->
  App.lookup_builder id w'
  = option_map PromptEngines.createBuilder (App.find_model id w').
Proof.
  intros H Hnd _ _.
  destruct (@published_after_load w w' doc id H) as [Hg Hb].
  rewrite Hb; rewrite find_last_is_first by exact Hnd.
  unfold App.find_model; rewrite Hg; cbn [models].
  f_equal; apply find_same_test; intro m.
  destruct (JsString.eqb id (m_id m)) eqn:E.
  - apply eqb_eq in E; symmetry; apply eqb_eq; congruence.
  - apply eqb_neq in E; symmetry; apply eqb_neq; congruence.
Qed.

End LoaderFacts.

Lemma load_keeps_settings_witness :
  UpdateManager.getItem UpdateManager.SOURCE_URL
    (snd (UpdateManager.loadGuidelines Fixture.online_fetch
            Fixture.parse_empty_object Fixture.stringify_empty_object
            (UpdateManager.initial_window
               [(UpdateManager.SOURCE_URL, js "https://example.org/m.json")])))
  = Some (js "https://example.org/m.json").
Proof.
  refine (eq_trans
            (@load_keeps_settings jsstring Fixture.online_fetch
               Fixture.parse_empty_object Fixture.stringify_empty_object
               (UpdateManager.initial_window
                  [(UpdateManager.SOURCE_URL,
                    js "https://example.org/m.json")])
               UpdateManager.SOURCE_URL _) _).
  - vm_compute; discriminate.
  - reflexivity.
Defined.

Lemma load_result_provenance_witness :
  let doc :=
    UpdateManager.set_source (js "local")
                             Fixture.document_with_global_lexicon in
  d_source doc = Some (js "remote") \/ d_source doc = Some (js "local") \/
  d_source doc = Some (js "cache").
Proof.
  intro doc.
  refine (proj2 (@load_result_provenance jsstring Fixture.online_fetch
                   Fixture.parse_empty_object Fixture.stringify_empty_object
                   (UpdateManager.initial_window [])
                   (snd (UpdateManager.loadGuidelines Fixture.online_fetch
                           Fixture.parse_empty_object
                           Fixture.stringify_empty_object
                           (UpdateManager.initial_window [])))
                   doc _)).
  reflexivity.
Defined.

Lemma malformed_cache_throws_parse_error_witness :
  UpdateManager.loadGuidelines Fixture.offline_fetch Sample.parse_nothing
    Fixture.stringify_empty_object
    (UpdateManager.initial_window Fixture.storage_with_cache)
  = (inl (js "SyntaxError"),
     UpdateManager.initial_window Fixture.storage_with_cache).
Proof.
  apply (@malformed_cache_throws_parse_error jsstring Fixture.offline_fetch
           Sample.parse_nothing Fixture.stringify_empty_object
           (UpdateManager.initial_window Fixture.storage_with_cache)
           (js "Failed to fetch ../assets/models.json")
           (js "SyntaxError") (js "{}"));
    reflexivity.
Defined.

Lemma load_publishes_document_witness :
  let w' :=
    snd (UpdateManager.loadGuidelines Fixture.online_fetch
           Fixture.parse_empty_object Fixture.stringify_empty_object
           (UpdateManager.initial_window [])) in
  option_map version (GlobalGuidelines w') = Some (js "1.0.0") /\
  App.lookup_builder (js "plain") w'
  = Some (PromptEngines.createBuilder Fixture.subject_model).
Proof.
  intro w'.
  destruct (@load_publishes_document jsstring Fixture.online_fetch
              Fixture.parse_empty_object Fixture.stringify_empty_object
              (UpdateManager.initial_window []) w'
              (UpdateManager.set_source (js "local")
                 Fixture.document_with_global_lexicon) (js "plain"))
    as [Hg Hb].
  - reflexivity.
  - reflexivity.
  - reflexivity.
  - split; [rewrite Hg; reflexivity | rewrite Hb; reflexivity].
Defined.

Lemma shown_model_is_built_model_witness :
  let w' :=
    snd (UpdateManager.loadGuidelines Fixture.online_fetch
           Fixture.parse_empty_object Fixture.stringify_empty_object
           (UpdateManager.initial_window [])) in
  App.lookup_builder (js "plain") w'
  = option_map PromptEngines.createBuilder (App.find_model (js "plain") w').
Proof.
  intro w'.
  apply (@shown_model_is_built_model jsstring Fixture.online_fetch
           Fixture.parse_empty_object Fixture.stringify_empty_object
           (UpdateManager.initial_window []) w'
           (UpdateManager.set_source (js "local")
              Fixture.document_with_global_lexicon) (js "plain")).
  - reflexivity.
  - repeat constructor; simpl; tauto.
  - reflexivity.
  - reflexivity.
Defined.




(** ** The refresh scheduler *)

(** X17.  The refresh period, for [NaN] or a whole number of minutes that
    is a safe integer and at most 150119987579 (so that the products by 60
    and by 1000 are exact): it is never below five minutes; zero and [NaN]
    give sixty minutes, not five; any other value is raised to five when
    below it; and feeding the normalized minutes back in gives the same
    period. *)
Theorem refresh_period (minutes : option Z) :
  match minutes with
  | Some z => (- 9007199254740991 <= z <= 150119987579)%Z
  | None => True
  end ->
  let ms := AutoUpdate.intervalMs minutes in
  (300000 <= ms <= 9007199254740000)%Z /\
  ms = (60000 * AutoUpdate.normalized_minutes minutes)%Z /\
  AutoUpdate.intervalMs None = 3600000%Z /\
  AutoUpdate.intervalMs (Some 0%Z) = 3600000%Z /\
  (forall z, z <> 0%Z -> (- 9007199254740991 <= z <= 150119987579)%Z ->
             AutoUpdate.intervalMs (Some z) = (60000 * Z.max 5 z)%Z) /\
  AutoUpdate.intervalMs (Some (AutoUpdate.normalized_minutes minutes)) = ms.
Proof.
  intros Hb ms; subst ms.
  unfold AutoUpdate.intervalMs, AutoUpdate.normalized_minutes.
  assert (Hn : (AutoUpdate.number_or minutes 60 <= 150119987579)%Z).
  { unfold AutoUpdate.number_or; destruct minutes as [z|]; [|lia].
    destruct (z =? 0)%Z; lia. }
  repeat split; try reflexivity; try lia.
  - intros z Hz _; unfold AutoUpdate.number_or.
    destruct (z =? 0)%Z eqn:E; [apply Z.eqb_eq in E; contradiction | lia].
  - f_equal; f_equal.
    set (n := AutoUpdate.number_or minutes 60) in *.
    unfold AutoUpdate.number_or at 1.
    destruct (Z.max 5 n =? 0)%Z eqn:E; [apply Z.eqb_eq in E; lia | lia].
Qed.

Lemma refresh_period_witness :
  AutoUpdate.intervalMs (Some 3%Z) = 300000%Z /\
  AutoUpdate.intervalMs (Some 90%Z) = 5400000%Z.
Proof.
  split.
  - destruct (@refresh_period (Some 3%Z)) as [_ [H _]];
      [lia | rewrite H; reflexivity].
  - destruct (@refresh_period (Some 90%Z)) as [_ [H _]];
      [lia | rewrite H; reflexivity].
Defined.

Lemma schedule_replaces_own_timer (minutes : option Z)
      (t : AutoUpdate.Timers) :
  match AutoUpdate.guidelinesInterval t with
  | None => AutoUpdate.active t = []
  | Some h => exists ms, AutoUpdate.active t = [(h, ms)]
  end ->
  AutoUpdate.active (AutoUpdate.scheduleAutoUpdate minutes t)
  = [(AutoUpdate.next_handle t, AutoUpdate.intervalMs minutes)] /\
  AutoUpdate.guidelinesInterval (AutoUpdate.scheduleAutoUpdate minutes t)
  = Some (AutoUpdate.next_handle t).
Proof.
  intro H; unfold AutoUpdate.scheduleAutoUpdate, AutoUpdate.setInterval.
  cbn [AutoUpdate.active AutoUpdate.guidelinesInterval].
  split; [|destruct (AutoUpdate.guidelinesInterval t); reflexivity].
  destruct (AutoUpdate.guidelinesInterval t) as [h|].
  - destruct H as [ms H]; cbn [AutoUpdate.clearInterval AutoUpdate.active].
    rewrite H; cbn [filter fst]; rewrite Nat.eqb_refl; reflexivity.
  - cbn [AutoUpdate.clearInterval]; rewrite H; reflexivity.
Qed.

(** X18.  On a page that starts without timers, after any number of
    scheduling calls exactly one refresh timer is active: the one of the
    last call, with the period of that call, and it is the one the page
    remembers for the next cancellation. *)
Theorem one_refresh_timer (calls : list (option Z)) (last : option Z) :
  let t :=
    fold_left (fun t m => AutoUpdate.scheduleAutoUpdate m t)
              (calls ++ [last]) AutoUpdate.no_timers in
  exists h,
    AutoUpdate.active t = [(h, AutoUpdate.intervalMs last)] /\
    AutoUpdate.guidelinesInterval t = Some h.
Proof.
  intro t; subst t; rewrite fold_left_app; cbn [fold_left].
  set (t0 := fold_left _ calls AutoUpdate.no_timers).
  assert (Inv : match AutoUpdate.guidelinesInterval t0 with
                | None => AutoUpdate.active t0 = []
                | Some h => exists ms, AutoUpdate.active t0 = [(h, ms)]
                end).
  { subst t0.
    induction calls as [|m calls IH] using rev_ind; [reflexivity|].
    rewrite fold_left_app; cbn [fold_left].
    destruct (schedule_replaces_own_timer m _ IH) as [Ha Hh].
    rewrite Hh; eexists; exact Ha. }
  destruct (schedule_replaces_own_timer last _ Inv) as [Ha Hh].
  eexists; split; [exact Ha | exact Hh].
Qed.

(** ** The page script *)

Lemma pieces_joined (a b : jsstring) :
  SlotParser.segments (a ++ 10%N :: b)
  = SlotParser.segments a ++ SlotParser.segments b.
Proof.
  rewrite !segments_without_outer_trim.
  apply pieces_app_separator; reflexivity.
Qed.

Lemma or_else_nil (s : jsstring) : or_else s [] = s.
Proof. destruct s; reflexivity. Qed.

Lemma trim_nil_blank (s : jsstring) :
  trim s = [] <-> forallb is_white_space s = true.
Proof.
  split; [|apply trim_blank].
  intro H; destruct (trim_decompose s) as [l [r [Hs [Hl Hr]]]].
  rewrite Hs, H, !forallb_app, Hl, Hr; reflexivity.
Qed.

Lemma segments_of_trimmed (text : jsstring) :
  SlotParser.segments (trim text) = SlotParser.segments text.
Proof. unfold SlotParser.segments; rewrite trim_idempotent; reflexivity. Qed.

Section ConvertFacts.

Variable Number_of_range : jsstring -> Z.

Local Abbreviation convert := (App.convert Number_of_range).
Local Abbreviation uiOptions_of := (App.uiOptions_of Number_of_range).


(** X20.  The text a conversion hands to the builder has the segments of
    the custom guideline followed by those of the description: with a
    custom guideline, the subject and the environment are taken from the
    guideline first. *)
Theorem convert_input_segments
        (f : App.Form) (w : Window) (b : Builder) :
  App.lookup_builder (App.elModel f) w = Some b ->
  exists input,
    SlotParser.segments input
    = SlotParser.segments (App.customGuidelineArea f)
        ++ SlotParser.segments (App.elKo f) /\
    convert f w
    = Some (App.set_result
              (full (PromptEngines.buildPrompt b w input (App.elEngine f)
                       (uiOptions_of f)))
              (Some (params_line
                       (PromptEngines.buildPrompt b w input (App.elEngine f)
                          (uiOptions_of f))))
              f).
Proof.
  intro H; unfold App.convert; rewrite H.
  eexists; split; [|reflexivity].
  rewrite or_else_nil; unfold App.prefixed.
  destruct (truthy (trim (App.customGuidelineArea f))) eqn:T.
  - change (trim (App.customGuidelineArea f) ++ [10%N] ++ trim (App.elKo f))
      with (trim (App.customGuidelineArea f) ++ 10%N :: trim (App.elKo f)).
    rewrite pieces_joined.
    rewrite !segments_of_trimmed; reflexivity.
  - rewrite segments_of_trimmed.
    replace (SlotParser.segments (App.customGuidelineArea f)) with
      (@nil jsstring); [reflexivity|].
    unfold SlotParser.segments.
    destruct (trim (App.customGuidelineArea f)); [reflexivity|discriminate T].
Qed.

End ConvertFacts.

Section ConvertOptions.

Variable Number_of_range : jsstring -> Z.

Local Abbreviation uiOptions_of := (App.uiOptions_of Number_of_range).

Lemma token_nonempty (k v : jsstring) : k ++ js " " ++ v <> [].
Proof.
  intro H; apply app_eq_nil in H; destruct H as [_ H]; discriminate H.
Qed.

Lemma provided_trimmed (s : jsstring) :
  PromptEngines.provided (Some (trim (or_else s []))) = false
  <-> forallb is_white_space s = true.
Proof.
  rewrite or_else_nil, <- trim_nil_blank; cbn [PromptEngines.provided].
  destruct (trim s); split; intro H; try reflexivity; discriminate H.
Qed.

(** X21.  A conversion omits the aspect, seed or negative token exactly
    when the corresponding control is empty or holds white space only;
    the stylize option is always set by the form, 50 standing in for an
    empty range value. *)
Theorem convert_omits_blank_options
        (f : App.Form) (ps : Params) (lex : Lexicon) :
  (PromptEngines.aspectToken ps (uiOptions_of f) = []
   <-> forallb is_white_space (App.elAspect f) = true) /\
  (PromptEngines.seedToken ps (uiOptions_of f) = []
   <-> forallb is_white_space (App.elSeed f) = true) /\
  (PromptEngines.negativeToken ps (uiOptions_of f) lex = []
   <-> forallb is_white_space (App.elNeg f) = true) /\
  stylize (uiOptions_of f)
  = Some (if truthy (App.elStylize f)
          then Number_of_range (App.elStylize f) else 50%Z).
Proof.
  unfold PromptEngines.aspectToken, PromptEngines.seedToken,
    PromptEngines.negativeToken, App.uiOptions_of;
    cbn [aspect seed negative stylize].
  repeat split; intro H.
  - apply provided_trimmed.
    destruct (PromptEngines.provided _); [|reflexivity].
    exfalso; exact (token_nonempty _ _ H).
  - apply provided_trimmed in H; rewrite H; reflexivity.
  - apply provided_trimmed.
    destruct (PromptEngines.provided _); [|reflexivity].
    exfalso; exact (token_nonempty _ _ H).
  - apply provided_trimmed in H; rewrite H; reflexivity.
  - apply provided_trimmed.
    destruct (PromptEngines.provided _); [|reflexivity].
    exfalso; exact (token_nonempty _ _ H).
  - apply provided_trimmed in H; rewrite H; reflexivity.
Qed.

(** X22.  Clear, then convert: the builder is run on the empty text with
    empty aspect, seed and negative options and the stylize value of the
    reset range, so every slot of the prompt is a default. *)
Theorem convert_after_clear (f : App.Form) (w : Window) (b : Builder) :
  App.lookup_builder (App.elModel f) w = Some b ->
  let uiOptions :=
    {| aspect := Some []; stylize := Some (Number_of_range (js "50"));
       seed := Some []; negative := Some [] |} in
  let r := PromptEngines.buildPrompt b w [] (App.elEngine f) uiOptions in
  App.convert Number_of_range (App.clear f) w
  = Some (App.set_result (full r) (Some (params_line r)) (App.clear f)) /\
  SlotParser.parse []
  = {| subject := SlotParser.default_subject;
       environment := SlotParser.default_environment;
       lighting := SlotParser.default_lighting;
       materials := SlotParser.default_materials;
       mood := SlotParser.default_mood;
       composition := SlotParser.default_composition;
       details := SlotParser.default_details;
       duration := 4 |} /\
  full r
  = PromptEngines.fill (template b)
      (PromptEngines.translateSlots (SlotParser.parse [])
         (PromptEngines.mergedLexicon w (modelRecord b)))
      (App.elEngine f) []
      (PromptEngines.interpolate (stylizeKey (params b)) ++ js " "
         ++ number_to_string (Number_of_range (js "50")))
      [] [].
Proof.
  intros H uiOptions r; split; [|split; reflexivity].
  unfold App.convert; cbn [App.clear App.elModel]; rewrite H; reflexivity.
Qed.

End ConvertOptions.

Lemma getItem_removeItem (k : jsstring) (w : Window) :
  UpdateManager.getItem k (App.removeItem k w) = None.
Proof.
  unfold UpdateManager.getItem, App.removeItem; cbn [localStorage].
  induction (localStorage w) as [|[k' v] o IH]; [reflexivity|].
  cbn [filter fst]; destruct (JsString.eqb k k') eqn:E; cbn [negb].
  - exact IH.
  - cbn [get]; rewrite E; exact IH.
Qed.

Lemma getItem_removeItem_other (k k0 : jsstring) (w : Window) :
  k <> k0 ->
  UpdateManager.getItem k (App.removeItem k0 w) = UpdateManager.getItem k w.
Proof.
  intro Hne; unfold UpdateManager.getItem, App.removeItem;
    cbn [localStorage].
  induction (localStorage w) as [|[k' v] o IH]; [reflexivity|].
  cbn [filter fst get]; destruct (JsString.eqb k0 k') eqn:E; cbn [negb].
  - apply eqb_eq in E; subst k'.
    apply eqb_neq in Hne; rewrite Hne; exact IH.
  - cbn [get]; rewrite IH; reflexivity.
Qed.

Section SettingsFacts.

Variable error : Type.
Variable fetchJson : jsstring -> error + GuidelineDocument.
Variable JSON_parse : jsstring -> error + GuidelineDocument.
Variable JSON_stringify : GuidelineDocument -> jsstring.
Variable Number_of_text : jsstring -> option Z.
Variable TypeError : error.

Local Abbreviation save :=
  (App.saveSettings fetchJson JSON_parse JSON_stringify Number_of_text
                    TypeError).

Local Abbreviation saved_minutes f :=
  (Z.max 5 (AutoUpdate.number_or (Number_of_text (App.elAutoInterval f)) 60)).

Lemma stored_settings (f : App.Form) (w : Window) :
  let w' := App.store_settings Number_of_text f w in
  UpdateManager.configured_url w'
  = (if truthy (trim (App.elGuidelinesUrl f))
     then trim (App.elGuidelinesUrl f)
     else UpdateManager.bundled_url) /\
  UpdateManager.getItem UpdateManager.AUTO_MINUTES w'
  = Some (number_to_string (saved_minutes f)) /\
  UpdateManager.getItem UpdateManager.CACHED_JSON w'
  = UpdateManager.getItem UpdateManager.CACHED_JSON w.
Proof.
  intro w'; subst w'; unfold App.store_settings.
  split; [|split].
  - unfold UpdateManager.configured_url.
    rewrite getItem_setItem_other by (vm_compute; discriminate).
    destruct (truthy (trim (App.elGuidelinesUrl f))) eqn:T.
    + rewrite getItem_setItem; cbn [PromptEngines.provided
                                      PromptEngines.interpolate].
      rewrite T; reflexivity.
    + rewrite getItem_removeItem; reflexivity.
  - apply getItem_setItem.
  - rewrite getItem_setItem_other by (vm_compute; discriminate).
    destruct (truthy (trim (App.elGuidelinesUrl f))).
    + apply getItem_setItem_other; vm_compute; discriminate.
    + apply getItem_removeItem_other; vm_compute; discriminate.
Qed.

(** X23.  Saved settings read back: after the save handler has stored the
    form, the loader fetches from the trimmed URL of the form, or from the
    bundled file when that URL is blank (a stored URL is removed); the
    stored period is the normalized number of minutes, at least five; and
    the cached document is not touched. *)
Theorem saved_settings_read_back (f : App.Form) (w : Window) :
  let w' := App.store_settings Number_of_text f w in
  UpdateManager.configured_url w'
  = (if truthy (trim (App.elGuidelinesUrl f))
     then trim (App.elGuidelinesUrl f)
     else UpdateManager.bundled_url) /\
  UpdateManager.getItem UpdateManager.AUTO_MINUTES w'
  = Some (number_to_string (saved_minutes f)) /\
  (5 <= saved_minutes f)%Z /\
  UpdateManager.getItem UpdateManager.CACHED_JSON w'
  = UpdateManager.getItem UpdateManager.CACHED_JSON w.
Proof.
  intro w'; destruct (stored_settings f w) as [H1 [H2 H3]].
  split; [exact H1|]; split; [exact H2|].
  split; [apply Z.le_max_l | exact H3].
Qed.

(** X24.  A save whose reload fails: when the fetch from the newly
    configured source fails and no cached document is stored, the handler
    ends with the exception of the fetch; the new settings stay stored,
    the published configuration and the registry are those from before,
    and the refresh timer is not rescheduled. *)
Theorem save_with_failed_reload
        (f : App.Form) (w : Window) (t : AutoUpdate.Timers) (err : error) :
  fetchJson (if truthy (trim (App.elGuidelinesUrl f))
             then trim (App.elGuidelinesUrl f)
             else UpdateManager.bundled_url) = inl err ->
  PromptEngines.provided (UpdateManager.getItem UpdateManager.CACHED_JSON w)
  = false ->
  save f w t
  = (Some err, App.store_settings Number_of_text f w, t) /\
  GlobalGuidelines (App.store_settings Number_of_text f w)
  = GlobalGuidelines w /\
  builders (App.store_settings Number_of_text f w) = builders w.
Proof.
  intros Hfetch Hcache.
  destruct (stored_settings f w) as [Hurl [_ Hc]].
  split.
  - unfold App.saveSettings, UpdateManager.loadGuidelines.
    rewrite try_fetch_failure with (err := err)
      by (rewrite Hurl; exact Hfetch).
    unfold UpdateManager.cache_fallback; rewrite Hc.
    destruct (UpdateManager.getItem UpdateManager.CACHED_JSON w)
      as [cached|]; [|reflexivity].
    cbn [PromptEngines.provided] in Hcache; rewrite Hcache; reflexivity.
  - unfold App.store_settings.
    destruct (truthy (trim (App.elGuidelinesUrl f))); split; reflexivity.
Qed.





End SettingsFacts.


Lemma convert_input_segments_witness :
  exists input,
    SlotParser.segments input
    = [js "Be concise"; js "red shoe"; js "wooden table"] /\
    App.convert Sample.range_number Sample.form Sample.loaded_window
    = Some (App.set_result
              (full (PromptEngines.buildPrompt
                       (PromptEngines.createBuilder Fixture.subject_model)
                       Sample.loaded_window input (js "image")
                       (App.uiOptions_of Sample.range_number Sample.form)))
              (Some (params_line
                       (PromptEngines.buildPrompt
                          (PromptEngines.createBuilder Fixture.subject_model)
                          Sample.loaded_window input (js "image")
                          (App.uiOptions_of Sample.range_number
                                            Sample.form))))
              Sample.form).
Proof.
  apply (@convert_input_segments Sample.range_number Sample.form
           Sample.loaded_window
           (PromptEngines.createBuilder Fixture.subject_model)).
  reflexivity.
Defined.

Lemma convert_after_clear_witness :
  let r :=
    PromptEngines.buildPrompt
      (PromptEngines.createBuilder Fixture.subject_model)
      Sample.loaded_window [] (js "image")
      {| aspect := Some []; stylize := Some 50%Z;
         seed := Some []; negative := Some [] |} in
  App.convert Sample.range_number (App.clear Sample.form)
    Sample.loaded_window
  = Some (App.set_result (full r) (Some (params_line r))
                         (App.clear Sample.form)) /\
  full r = js "product beauty shot".
Proof.
  intro r.
  destruct (@convert_after_clear Sample.range_number Sample.form
              Sample.loaded_window
              (PromptEngines.createBuilder Fixture.subject_model))
    as [H _].
  - reflexivity.
  - split; [exact H | reflexivity].
Defined.

Lemma save_with_failed_reload_witness :
  App.saveSettings Fixture.offline_fetch Fixture.parse_empty_object
    Fixture.stringify_empty_object Sample.number_of_digits
    (js "TypeError") Sample.form
    (UpdateManager.initial_window []) AutoUpdate.no_timers
  = (Some (js "Failed to fetch https://example.org/models.json"),
     App.store_settings Sample.number_of_digits Sample.form
       (UpdateManager.initial_window []),
     AutoUpdate.no_timers).
Proof.
  refine (proj1 (@save_with_failed_reload jsstring Fixture.offline_fetch
                   Fixture.parse_empty_object Fixture.stringify_empty_object
                   Sample.number_of_digits (js "TypeError") Sample.form
                   (UpdateManager.initial_window []) AutoUpdate.no_timers
                   (js "Failed to fetch https://example.org/models.json")
                   _ _));
    reflexivity.
Defined.



(** ** Empty options and the rendered text *)






(** ** A lexicon entry under the key of the prototype accessor *)

Example proto_entry_not_merged :
  let lex := assign [] [(js "__proto__", js "x"); (js "red", js "rouge")] in
  get (js "__proto__") lex = None /\
  MiniTranslator.translate (js "red __proto__") lex = js "rouge __proto__".
Proof. split; vm_compute; reflexivity. Qed.
